(** * obol-ip-updater: a shallow embedding of [main.go]

    The daemon polls an address-lookup service, compares the answer with
    the newest row of a SQLite table and with the value of
    [CHARON_P2P_EXTERNAL_HOSTNAME] as read through godotenv, and rewrites
    the [.env] file, restarts Charon and records the address when they
    disagree.

    Everything the program obtains from outside (the HTTP exchange, the
    dotenv load, the process environment, file and database errors, the
    exit status of docker) is an input of one loop iteration, gathered in
    the record [Outcomes].  What the program owns across iterations (the
    [.env] file, the [ip_store] table and the local error counter) is the
    record [World]. *)

From Stdlib Require Import ZArith Lia Ascii.
From stdpp Require Import base list strings.

Open Scope string_scope.
Open Scope list_scope.

(** ** Constants of [main.go] *)

Module Duration.
(** [time.Duration] counts nanoseconds in an int64. *)
Definition Second : Z := 1000000000.
End Duration.

Definition checkInterval : Z := 10 * Duration.Second.
Definition retryInterval : Z := 5 * Duration.Second.
Definition httpTimeout : Z := 10 * Duration.Second.
Definition envKey : string := "CHARON_P2P_EXTERNAL_HOSTNAME".
Definition StatusOK : Z := 200.
Definition maxConsecutiveErrors : Z := 5.

(** ** The pieces of package [strings] used by [updateEnvFile] *)

Module strings.

Definition nl : ascii := "010"%char.

(** [strings.Split(s, "\n")]: the pieces between the separators, so one
    more piece than there are separators; the empty string gives one
    empty piece. *)
Fixpoint Split (s : string) : list string :=
  match s with
  | EmptyString => [EmptyString]
  | String c s' =>
      if Ascii.eqb c nl then EmptyString :: Split s'
      else match Split s' with
           | piece :: rest => String c piece :: rest
           | [] => [String c EmptyString]
           end
  end.

(** [strings.Join(elems, "\n")]. *)
Fixpoint Join (elems : list string) : string :=
  match elems with
  | [] => EmptyString
  | [e] => e
  | e :: rest => e +:+ String nl (Join rest)
  end.

(** [strings.HasPrefix(s, prefix)]. *)
Definition HasPrefix (s pre : string) : bool := String.prefix pre s.

(** [strings.TrimPrefix(s, prefix)]. *)
Definition TrimPrefix (s pre : string) : string :=
  if HasPrefix s pre
  then String.substring (String.length pre) (String.length s - String.length pre) s
  else s.

(** No line break occurs in [s]. *)
Fixpoint oneLine (s : string) : bool :=
  match s with
  | EmptyString => true
  | String c s' => negb (Ascii.eqb c nl) && oneLine s'
  end.

End strings.

(** ** The line rewriting of [updateEnvFile] *)

(** [fmt.Sprintf("%s=%s", envKey, newIP)] *)
Definition entry (newIP : string) : string := envKey +:+ "=" +:+ newIP.

(** [strings.HasPrefix(line, envKey+"=")] *)
Definition isKeyLine (line : string) : bool :=
  strings.HasPrefix line (envKey +:+ "=").

(** The [for i, line := range lines] loop: [todo] is the part of the slice
    still to visit, [i] the index of its head.  The first line carrying
    the key is overwritten and the loop is left ([break]).  The result is
    the slice, [found], and the old value that the loop logs when it
    replaces a line. *)
Fixpoint scanLines (newIP : string) (todo : list string) (i : nat)
    (lines : list string) : list string * bool * option string :=
  match todo with
  | [] => (lines, false, None)
  | line :: todo' =>
      if isKeyLine line then
        let oldIP := strings.TrimPrefix line (envKey +:+ "=") in
        (<[i := entry newIP]> lines, true, Some oldIP)
      else scanLines newIP todo' (S i) lines
  end.

(** The slice [lines] as it stands just before [strings.Join]. *)
Definition rewriteLines (newIP : string) (lines : list string) : list string :=
  let '(lines', found, _) := scanLines newIP lines 0 lines in
  if found then lines' else lines' ++ [entry newIP].

(** The bytes handed to [os.WriteFile] for the file content [input]. *)
Definition newEnvContent (newIP input : string) : string :=
  strings.Join (rewriteLines newIP (strings.Split input)).

(** Number of lines of a file content that begin with [envKey=]. *)
Definition keyLines (content : string) : nat :=
  length (filter (λ l, isKeyLine l = true) (strings.Split content)).

(** ** Errors, log lines and observable effects *)

(** The [error] values the program builds or compares against.  The
    wrapped cause of a [fmt.Errorf("...: %v", err)] is kept only for
    [ErrUpdateRestart], whose cause is built by this program. *)
Inductive error : Type :=
  | ErrNetwork            (* network error while fetching IP *)
  | ErrStatus (code : Z)  (* received non-200 status code *)
  | ErrReadBody           (* failed to read response *)
  | ErrParse              (* failed to parse response *)
  | ErrEmptyIP            (* received empty IP from API *)
  | ErrLoadEnv            (* failed to load .env file *)
  | ErrNoEnvIP            (* IP not found in .env file *)
  | ErrRestart            (* failed to restart Charon *)
  | ErrReadEnvFile        (* failed to read .env file *)
  | ErrWriteEnvFile       (* failed to write .env file *)
  | ErrUpdateRestart (cause : error) (* failed to restart Charon after IP update *)
  | ErrNoRows             (* sql.ErrNoRows *)
  | ErrDatabase.          (* any other error of database/sql *)

(** One constructor per [log.Printf] of the loop and of the functions it
    calls. *)
Inductive LogMsg : Type :=
  | LogFetching
  | LogFetched (ip : string)
  | LogFetchError (attempt max : Z) (e : error)
  | LogIncreasingInterval
  | LogEnvWarning (e : error)
  | LogNoStoredIP (currentIP : string)
  | LogQueryError (e : error)
  | LogQueryRetry
  | LogStoredIP (storedIP : string)
  | LogUpdateError (e : error)
  | LogUpdateRetry
  | LogInsertError (e : error)
  | LogInserted (currentIP : string)
  | LogNoChange (currentIP : string)
  | LogWaiting
  | LogUpdatingEnvFile (newIP : string)
  | LogReplacing (oldIP newIP : string)
  | LogAppending
  | LogEnvFileUpdated
  | LogRestarting
  | LogRestarted.

(** What one iteration does to the outside, in program order.  An event
    records that the call was made; whether it succeeded is decided by
    [Outcomes]. *)
Inductive Event : Type :=
  | Log (m : LogMsg)
  | Sleep (d : Z)                 (* time.Sleep *)
  | HttpGet                       (* client.Get(ipifyAPI) *)
  | DotenvLoad                    (* godotenv.Load() *)
  | ReadEnvFile                   (* os.ReadFile(".env") *)
  | WriteEnvFile (data : string)  (* os.WriteFile(".env", data, 0644) *)
  | DockerUp                      (* docker compose up charon -d --force-recreate *)
  | DbQuery                       (* SELECT ip ... ORDER BY updated_at DESC LIMIT 1 *)
  | DbInsert (ip : string).       (* INSERT INTO ip_store (ip) VALUES (?) *)

(** ** What the outside answers during one iteration *)

(** [json.Unmarshal(body, &ipResp)]: a failure, or success with the
    string found under the key [ip] when the document has one. *)
Inductive Unmarshalled : Type :=
  | BadJSON
  | Document (ip : option string).

(** [io.ReadAll(resp.Body)] followed by the decoding of what was read. *)
Inductive Body : Type :=
  | BodyUnreadable
  | BodyRead (doc : Unmarshalled).

(** [client.Get(ipifyAPI)]. *)
Inductive Exchange : Type :=
  | NoResponse
  | Response (StatusCode : Z) (body : Body).

(** [os.WriteFile]: success stores the data; a failure may leave any
    content behind, since the file is truncated before it is written. *)
Inductive WriteOutcome : Type :=
  | Written
  | WriteFailed (residue : string).

Record Outcomes : Type := mkOutcomes {
  exchange : Exchange;
  dotenvLoaded : bool;        (* godotenv.Load() returned nil *)
  getenv : string;            (* os.Getenv(envKey) after that load *)
  queryFailed : bool;         (* the SELECT fails, not with ErrNoRows *)
  readFailed : bool;          (* os.ReadFile(".env") fails *)
  written : WriteOutcome;
  dockerFailed : bool;        (* the docker command fails *)
  insertFailed : bool         (* the INSERT fails *)
}.

(** An iteration in which every call succeeds: the service answers [ip]
    and the environment holds [envValue] under [envKey]. *)
Definition calm (ip envValue : string) : Outcomes :=
  mkOutcomes (Response 200 (BodyRead (Document (Some ip)))) true envValue
             false false Written false false.

(** ** What persists between iterations *)

(** [ip_store] lists the [ip] column ordered by [updated_at], newest
    last: an INSERT stamps its row with the current time, so it adds at
    the end, and the SELECT of the loop returns the last element. *)
Record World : Type := mkWorld {
  envFile : string;
  ip_store : list string;
  consecutiveErrors : Z
}.

(** Go's [int] on a 64-bit target. *)
Definition wrapInt (z : Z) : Z := (z + 2 ^ 63) mod 2 ^ 64 - 2 ^ 63.

(** ** A state and trace monad for the loop body *)

Definition M (A : Type) : Type := World → A * World * list Event.

#[global] Instance M_ret : MRet M := λ A a w, (a, w, []).
#[global] Instance M_bind : MBind M := λ A B f m w,
  let '(a, w1, t1) := m w in
  let '(b, w2, t2) := f a w1 in
  (b, w2, t1 ++ t2).

Definition emit (e : Event) : M unit := λ w, (tt, w, [e]).
Definition logf (m : LogMsg) : M unit := emit (Log m).
Definition sleep (d : Z) : M unit := emit (Sleep d).
Definition gets {A} (f : World → A) : M A := λ w, (f w, w, []).
Definition modify (f : World → World) : M unit := λ w, (tt, f w, []).

Definition setEnvFile (s : string) (w : World) : World :=
  mkWorld s (ip_store w) (consecutiveErrors w).
Definition appendRow (ip : string) (w : World) : World :=
  mkWorld (envFile w) (ip_store w ++ [ip]) (consecutiveErrors w).
Definition setConsecutiveErrors (n : Z) (w : World) : World :=
  mkWorld (envFile w) (ip_store w) n.

Definition world_of {A} (r : A * World * list Event) : World := r.1.2.
Definition trace_of {A} (r : A * World * list Event) : list Event := r.2.
Definition value_of {A} (r : A * World * list Event) : A := r.1.1.

(** ** The functions of [main.go] *)

Record IPResponse : Type := mkIPResponse { IP : string }.

(** [json.Unmarshal(body, &ipResp)]: a key that the document lacks leaves
    the field as it was. *)
Definition Unmarshal (doc : Unmarshalled) (v : IPResponse) : IPResponse * option error :=
  match doc with
  | BadJSON => (v, Some ErrParse)
  | Document (Some ip) => (mkIPResponse ip, None)
  | Document None => (v, None)
  end.

Definition getCurrentIP (o : Outcomes) : M (string * option error) :=
  logf LogFetching;;
  emit HttpGet;;
  match exchange o with
  | NoResponse => mret ("", Some ErrNetwork)
  | Response StatusCode body =>
      if negb (StatusCode =? StatusOK)%Z then mret ("", Some (ErrStatus StatusCode))
      else
        match body with
        | BodyUnreadable => mret ("", Some ErrReadBody)
        | BodyRead doc =>
            let ipResp := mkIPResponse "" in
            match Unmarshal doc ipResp with
            | (_, Some _) => mret ("", Some ErrParse)
            | (ipResp, None) =>
                if String.eqb (IP ipResp) "" then mret ("", Some ErrEmptyIP)
                else logf (LogFetched (IP ipResp));; mret (IP ipResp, None)
            end
        end
  end.

Definition getEnvIP (o : Outcomes) : M (string * option error) :=
  emit DotenvLoad;;
  if negb (dotenvLoaded o) then mret ("", Some ErrLoadEnv)
  else
    let ip := getenv o in
    if String.eqb ip "" then mret ("", Some ErrNoEnvIP)
    else mret (ip, None).

Definition restartCharon (o : Outcomes) : M (option error) :=
  logf LogRestarting;;
  emit DockerUp;;
  if dockerFailed o then mret (Some ErrRestart)
  else logf LogRestarted;; mret None.

Definition updateEnvFile (o : Outcomes) (newIP : string) : M (option error) :=
  logf (LogUpdatingEnvFile newIP);;
  emit ReadEnvFile;;
  if readFailed o then mret (Some ErrReadEnvFile)
  else
    input ← gets envFile;
    let lines := strings.Split input in
    let '(lines, found, replaced) := scanLines newIP lines 0 lines in
    match replaced with
    | Some oldIP => logf (LogReplacing oldIP newIP)
    | None => mret tt
    end;;
    lines ← (if negb found
             then logf LogAppending;; mret (lines ++ [entry newIP])
             else mret lines);
    let output := strings.Join lines in
    emit (WriteEnvFile output);;
    match written o with
    | WriteFailed residue => modify (setEnvFile residue);; mret (Some ErrWriteEnvFile)
    | Written =>
        modify (setEnvFile output);;
        logf LogEnvFileUpdated;;
        err ← restartCharon o;
        match err with
        | Some e => mret (Some (ErrUpdateRestart e))
        | None => mret None
        end
    end.

(** [db.QueryRow("SELECT ip FROM ip_store ORDER BY updated_at DESC LIMIT 1").Scan(&storedIP)];
    [storedIP] keeps its zero value unless a row is scanned. *)
Definition queryLatest (o : Outcomes) : M (string * option error) :=
  emit DbQuery;;
  if queryFailed o then mret ("", Some ErrDatabase)
  else
    rows ← gets ip_store;
    match last rows with
    | None => mret ("", Some ErrNoRows)
    | Some ip => mret (ip, None)
    end.

(** [db.Exec("INSERT INTO ip_store (ip) VALUES (?)", currentIP)] *)
Definition insertIP (o : Outcomes) (currentIP : string) : M (option error) :=
  emit (DbInsert currentIP);;
  if insertFailed o then mret (Some ErrDatabase)
  else modify (appendRow currentIP);; mret None.

Definition isNoRows (err : option error) : bool :=
  match err with Some ErrNoRows => true | _ => false end.
Definition isNil (err : option error) : bool :=
  match err with None => true | Some _ => false end.

(** The condition of the [if] that guards the update:
    [err == sql.ErrNoRows || (err == nil && storedIP != currentIP) ||
     (envIP != "" && envIP != storedIP)]. *)
Definition needsUpdate (err : option error) (currentIP envIP storedIP : string) : bool :=
  isNoRows err
  || (isNil err && negb (String.eqb storedIP currentIP))
  || (negb (String.eqb envIP "") && negb (String.eqb envIP storedIP)).

(** The rest of the loop body once the query has not failed: the guarded
    update, then the standard wait.  A failed update waits the retry
    interval and leaves the iteration ([continue]). *)
Definition reconcile (o : Outcomes) (err : option error)
    (currentIP envIP storedIP : string) : M unit :=
  if needsUpdate err currentIP envIP storedIP then
    uerr ← updateEnvFile o currentIP;
    match uerr with
    | Some e =>
        logf (LogUpdateError e);;
        logf LogUpdateRetry;;
        sleep retryInterval
    | None =>
        ierr ← insertIP o currentIP;
        match ierr with
        | Some e => logf (LogInsertError e)
        | None => logf (LogInserted currentIP)
        end;;
        logf LogWaiting;;
        sleep checkInterval
    end
  else
    logf (LogNoChange currentIP);;
    logf LogWaiting;;
    sleep checkInterval.

(** One iteration of the [for] loop of [main]. *)
Definition tick (o : Outcomes) : M unit :=
  '(currentIP, err) ← getCurrentIP o;
  match err with
  | Some e =>
      n ← gets consecutiveErrors;
      modify (setConsecutiveErrors (wrapInt (n + 1)));;
      n ← gets consecutiveErrors;
      logf (LogFetchError n maxConsecutiveErrors e);;
      if (n >=? maxConsecutiveErrors)%Z then
        logf LogIncreasingInterval;;
        sleep (checkInterval * 2)
      else sleep retryInterval
  | None =>
      modify (setConsecutiveErrors 0);;
      '(envIP, err) ← getEnvIP o;
      match err with
      | Some e => logf (LogEnvWarning e)
      | None => mret tt
      end;;
      '(storedIP, err) ← queryLatest o;
      match err with
      | Some ErrNoRows =>
          logf (LogNoStoredIP currentIP);;
          reconcile o err currentIP envIP storedIP
      | Some e =>
          logf (LogQueryError e);;
          logf LogQueryRetry;;
          sleep retryInterval
      | None =>
          logf (LogStoredIP storedIP);;
          reconcile o err currentIP envIP storedIP
      end
  end.

(** The loop, for as many iterations as there are answers. *)
Fixpoint run (os : list Outcomes) : M unit :=
  match os with
  | [] => mret tt
  | o :: os' => tick o;; run os'
  end.

(** ** Reading a trace *)

(** The data of each [os.WriteFile] call, in order. *)
Definition writes (t : list Event) : list string :=
  omap (λ e, match e with WriteEnvFile data => Some data | _ => None end) t.

(** The number of docker invocations. *)
Definition restarts (t : list Event) : nat :=
  length (omap (λ e, match e with DockerUp => Some tt | _ => None end) t).

(** The address of each INSERT, in order. *)
Definition inserts (t : list Event) : list string :=
  omap (λ e, match e with DbInsert ip => Some ip | _ => None end) t.

(** The argument of each [time.Sleep], in order. *)
Definition sleeps (t : list Event) : list Z :=
  omap (λ e, match e with Sleep d => Some d | _ => None end) t.

(** The log lines, in order. *)
Definition logged (t : list Event) : list LogMsg :=
  omap (λ e, match e with Log m => Some m | _ => None end) t.

(** [updateEnvFile] was entered: it reads [.env] before anything else,
    and nothing else does through [os.ReadFile]. *)
Definition updateAttempted (t : list Event) : bool :=
  existsb (λ e, match e with ReadEnvFile => true | _ => false end) t.

(** The iteration left the file and the table alone and did not call
    docker. *)
Definition untouched {A} (w : World) (r : A * World * list Event) : Prop :=
  envFile (world_of r) = envFile w ∧ ip_store (world_of r) = ip_store w
  ∧ writes (trace_of r) = [] ∧ restarts (trace_of r) = 0%nat
  ∧ inserts (trace_of r) = [].

(** The decision rule in the words of the specification: (a) no stored
    record, (b) a stored record that differs from the fetched address,
    (c) a config value that is present and differs from the stored one. *)
Module Spec.
Definition updateRequired (store : list string) (currentIP envIP : string) : Prop :=
  last store = None
  ∨ (∃ stored, last store = Some stored ∧ stored ≠ currentIP)
  ∨ (envIP ≠ "" ∧ ∃ stored, last store = Some stored ∧ envIP ≠ stored).
End Spec.

(** [updateEnvFile] returns [nil]: the file was read and written and
    docker succeeded. *)
Definition updateSucceeds (o : Outcomes) : bool :=
  negb (readFailed o)
  && match written o with Written => true | WriteFailed _ => false end
  && negb (dockerFailed o).

(** What [queryLatest] hands to the decision when the query does not
    fail, as a function of the table. *)
Definition storedOf (store : list string) : string * option error :=
  match last store with
  | Some stored => (stored, None)
  | None => ("", Some ErrNoRows)
  end.

(** The database is unavailable; every other call succeeds. *)
Definition lockedDb (ip envValue : string) : Outcomes :=
  mkOutcomes (Response 200 (BodyRead (Document (Some ip)))) true envValue
             true false Written false false.

(** Docker fails; every other call succeeds. *)
Definition dockerDown (ip envValue : string) : Outcomes :=
  mkOutcomes (Response 200 (BodyRead (Document (Some ip)))) true envValue
             false false Written true false.

(** The INSERT fails; every other call succeeds. *)
Definition insertBroken (ip envValue : string) : Outcomes :=
  mkOutcomes (Response 200 (BodyRead (Document (Some ip)))) true envValue
             false false Written false true.

(** The service cannot be reached. *)
Definition offline : Outcomes :=
  mkOutcomes NoResponse true "" false false Written false false.

(** The query was issued. *)
Definition queried (t : list Event) : bool :=
  existsb (λ e, match e with DbQuery => true | _ => false end) t.

(** Go's [int] holds [z] and [z + 1]. *)
Definition canCount (z : Z) : Prop := (- 2 ^ 63 ≤ z < 2 ^ 63 - 1)%Z.

(** The wait that follows the fetch failure that brings the counter to
    [n]. *)
Definition backoff (n : Z) : Z :=
  if (n >=? maxConsecutiveErrors)%Z then checkInterval * 2 else retryInterval.

(** What [getCurrentIP] returns; it does not look at the world. *)
Definition fetchOf (o : Outcomes) : string * option error :=
  value_of (getCurrentIP o (mkWorld "" [] 0)).

(** The waits of [k] fetch failures in a row, the counter being [c]
    before the first of them. *)
Fixpoint backoffs (c : Z) (k : nat) : list Z :=
  match k with
  | O => []
  | S k' => backoff (c + 1) :: backoffs (c + 1) k'
  end.

(** What [getEnvIP] returns; it does not look at the world either. *)
Definition envOf (o : Outcomes) : string * option error :=
  value_of (getEnvIP o (mkWorld "" [] 0)).

(** The number of HTTP requests. *)
Definition requests (t : list Event) : nat :=
  length (omap (λ e, match e with HttpGet => Some tt | _ => None end) t).

(** ** Start-up: [initDB] and the head of [main] *)

Definition dbPath : string := "ip_store.db".
Definition ipifyAPI : string := "https://api.ipify.org?format=json".

(** The errors [initDB] builds. *)
Inductive InitError : Type :=
  | ErrOpenDatabase   (* failed to open database *)
  | ErrCreateTable.   (* failed to create table *)

(** What the process does from its start: the calls and log lines of
    [initDB] and of [main] around the loop, and the events of the loop
    itself. *)
Inductive ProcessEvent : Type :=
  | LogStarting                    (* Starting IP monitoring service... *)
  | LogCheckInterval (d : Z)       (* Check interval: %v *)
  | LogInitializingDB (path : string)
  | LogDBInitialized
  | LogServiceStarted
  | LogMonitoring
  | SqlOpen (path : string)        (* sql.Open("sqlite3", dbPath) *)
  | CreateTable                    (* CREATE TABLE IF NOT EXISTS ip_store ... *)
  | DbClose                        (* db.Close() *)
  | Fatalf (e : InitError)         (* log.Fatalf: logs, then os.Exit(1) *)
  | InLoop (e : Event).

(** What [sql.Open] and the [db.Exec] of the table creation answer. *)
Record Startup : Type := mkStartup {
  openFailed : bool;
  createFailed : bool
}.

(** [initDB]: the error, if any, and what was done.  The handle is
    returned exactly when the error is [nil]. *)
Definition initDB (s : Startup) : option InitError * list ProcessEvent :=
  let opening := [LogInitializingDB dbPath; SqlOpen dbPath] in
  if openFailed s then (Some ErrOpenDatabase, opening)
  else if createFailed s then
    (Some ErrCreateTable, opening ++ [CreateTable; DbClose])
  else (None, opening ++ [CreateTable; LogDBInitialized]).

(** [main] followed for as many iterations as there are answers.  The
    third component is the exit status when the process has exited.
    The deferred [db.Close()] is registered only after [initDB] has
    succeeded and runs when [main] returns, which the loop never lets
    happen. *)
Definition main (s : Startup) (os : list Outcomes) (w : World)
    : World * list ProcessEvent * option Z :=
  let banner := [LogStarting; LogCheckInterval checkInterval] in
  let '(err, opened) := initDB s in
  match err with
  | Some e => (w, banner ++ opened ++ [Fatalf e], Some 1%Z)
  | None =>
      let '(_, w', t) := run os (setConsecutiveErrors 0 w) in
      (w', banner ++ opened ++ [LogServiceStarted; LogMonitoring] ++ map InLoop t, None)
  end.

(** The events of the loop within a trace of the process. *)
Definition loopEvents (t : list ProcessEvent) : list Event :=
  omap (λ e, match e with InLoop e' => Some e' | _ => None end) t.

(** The number of [db.Close()] calls. *)
Definition closes (t : list ProcessEvent) : nat :=
  length (omap (λ e, match e with DbClose => Some tt | _ => None end) t).

(** ** The earlier revision of the program

    The second source file is an earlier revision of [main.go].  Its
    [getEnvIP], [restartCharon] and [updateEnvFile] are those above; its
    [getCurrentIP] checks neither the status nor the address, and its
    loop has no error counter and waits [checkInterval] on every path. *)

Module Previous.

(** The errors of the earlier [getCurrentIP]. *)
Inductive FetchError : Type :=
  | ErrGetIP      (* failed to get IP *)
  | ErrReadBody   (* failed to read response *)
  | ErrParse.     (* failed to parse response *)

(** The events of the earlier loop: those it shares with the current one,
    and the two log lines whose text differs. *)
Inductive PEvent : Type :=
  | Shared (e : Event)
  | LogFetchError (e : FetchError)   (* Error getting current IP: %v *)
  | LogRetrying (d : Z).             (* Retrying in %v... *)

Definition PM (A : Type) : Type := World → A * World * list PEvent.

#[global] Instance PM_ret : MRet PM := λ A a w, (a, w, []).
#[global] Instance PM_bind : MBind PM := λ A B f m w,
  let '(a, w1, t1) := m w in
  let '(b, w2, t2) := f a w1 in
  (b, w2, t1 ++ t2).

(** A function of the current revision, used as it is. *)
Definition lift {A} (m : M A) : PM A := λ w,
  let '(a, w', t) := m w in (a, w', map Shared t).

Definition pemit (e : PEvent) : PM unit := λ w, (tt, w, [e]).

Definition getCurrentIP (o : Outcomes) : PM (string * option FetchError) :=
  lift (logf LogFetching);;
  lift (emit HttpGet);;
  match exchange o with
  | NoResponse => mret ("", Some ErrGetIP)
  | Response _ body =>
      match body with
      | BodyUnreadable => mret ("", Some ErrReadBody)
      | BodyRead doc =>
          let ipResp := mkIPResponse "" in
          match Unmarshal doc ipResp with
          | (_, Some _) => mret ("", Some ErrParse)
          | (ipResp, None) =>
              lift (logf (LogFetched (IP ipResp)));; mret (IP ipResp, None)
          end
      end
  end.

(** The guarded update of the earlier loop and the wait that follows:
    as in the current revision, except that a failed update waits the
    check interval. *)
Definition reconcile (o : Outcomes) (err : option error)
    (currentIP envIP storedIP : string) : PM unit :=
  if needsUpdate err currentIP envIP storedIP then
    uerr ← lift (updateEnvFile o currentIP);
    match uerr with
    | Some e =>
        lift (logf (LogUpdateError e));;
        pemit (LogRetrying checkInterval);;
        lift (sleep checkInterval)
    | None =>
        ierr ← lift (insertIP o currentIP);
        match ierr with
        | Some e => lift (logf (LogInsertError e))
        | None => lift (logf (LogInserted currentIP))
        end;;
        lift (logf LogWaiting);;
        lift (sleep checkInterval)
    end
  else
    lift (logf (LogNoChange currentIP));;
    lift (logf LogWaiting);;
    lift (sleep checkInterval).

(** One iteration of the earlier loop. *)
Definition tick (o : Outcomes) : PM unit :=
  '(currentIP, err) ← getCurrentIP o;
  match err with
  | Some e =>
      pemit (LogFetchError e);;
      pemit (LogRetrying checkInterval);;
      lift (sleep checkInterval)
  | None =>
      '(envIP, err) ← lift (getEnvIP o);
      match err with
      | Some e => lift (logf (LogEnvWarning e))
      | None => mret tt
      end;;
      '(storedIP, err) ← lift (queryLatest o);
      match err with
      | Some ErrNoRows =>
          lift (logf (LogNoStoredIP currentIP));;
          reconcile o err currentIP envIP storedIP
      | Some e =>
          lift (logf (LogQueryError e));;
          lift (sleep checkInterval)
      | None =>
          lift (logf (LogStoredIP storedIP));;
          reconcile o err currentIP envIP storedIP
      end
  end.

(** The shared events of a trace of the earlier loop. *)
Definition shared (t : list PEvent) : list Event :=
  omap (λ e, match e with Shared e' => Some e' | _ => None end) t.

End Previous.

(** What a guarded update does to the file and the table, in either
    revision, in terms of the call to [updateEnvFile]: [needed] is the
    value of the condition, [world'] and [t] the world and the events
    that result. *)
Definition guardedEffects (o : Outcomes) (w : World) (ip : string) (needed : bool)
    (world' : World) (t : list Event) : Prop :=
  let u := updateEnvFile o ip w in
  if needed then
    writes t = writes (trace_of u) ∧ restarts t = restarts (trace_of u)
    ∧ envFile world' = envFile (world_of u)
    ∧ match value_of u with
      | Some _ => inserts t = [] ∧ ip_store world' = ip_store w
      | None =>
          inserts t = [ip]
          ∧ ip_store world' = (if insertFailed o then ip_store w else ip_store w ++ [ip])
      end
  else
    writes t = [] ∧ restarts t = 0%nat ∧ inserts t = []
    ∧ envFile world' = envFile w ∧ ip_store world' = ip_store w.

(** ** Proof steps used throughout *)

(** Expose the pairs behind the monad. *)
Ltac unfold_M :=
  unfold mbind, mret, M_bind, M_ret, logf, sleep, emit, gets, modify,
    world_of, trace_of, value_of in *.

(** A concrete trace ends with its last [n] events. *)
Ltac suffix_of n :=
  match goal with
  | |- ex (λ pre, ?l = pre ++ _) =>
      exists (take (length l - n) l); simpl; reflexivity
  end.

(** Close the conjuncts of a summary of effects once the trace is
    known. *)
Ltac effects_done :=
  repeat split; try lia; eauto; try discriminate;
  try (intros ? Hin; inversion Hin; fail);
  try (destruct (insertFailed _); rewrite ?app_nil_r; reflexivity).

(** Expose both revisions of the loop body down to the calls. *)
Ltac unfold_ticks :=
  unfold Previous.tick, Previous.reconcile, Previous.getCurrentIP, Previous.lift,
    Previous.pemit, tick, reconcile, getCurrentIP, getEnvIP, queryLatest, insertIP,
    updateEnvFile, restartCharon, Unmarshal;
  unfold mbind, mret, Previous.PM_bind, Previous.PM_ret;
  unfold_M.

(** * Properties *)

(** ** Splitting and joining lines *)

Section Lines.

Import strings.

Lemma nl_eqb_refl : Ascii.eqb nl nl = true.
Proof. reflexivity. Qed.

Lemma Split_not_nil (s : string) : Split s ≠ [].
Proof.
  destruct s as [|c s]; simpl; [discriminate|].
  destruct (Ascii.eqb c nl); [discriminate|].
  destruct (Split s); discriminate.
Qed.

Lemma Split_oneLine (s : string) : oneLine s = true → Split s = [s].
Proof.
  induction s as [|c s IH]; simpl; [reflexivity|].
  destruct (Ascii.eqb c nl); simpl; [discriminate|].
  intros H. rewrite (IH H). reflexivity.
Qed.

Lemma Split_append_nl (a b : string) :
  oneLine a = true → Split (a +:+ String nl b) = a :: Split b.
Proof.
  induction a as [|c a IH]; simpl.
  - intros _. reflexivity.
  - destruct (Ascii.eqb c nl); simpl; [discriminate|].
    intros H. rewrite (IH H). reflexivity.
Qed.

Lemma Split_pieces_oneLine (s : string) :
  Forall (λ l, oneLine l = true) (Split s).
Proof.
  induction s as [|c s IH]; simpl.
  - repeat constructor.
  - destruct (Ascii.eqb c nl) eqn:E.
    + constructor; [reflexivity | exact IH].
    + destruct (Split s) as [|p rest]; inversion IH; subst.
      * repeat constructor. simpl. rewrite E. reflexivity.
      * constructor; [|assumption]. simpl. rewrite E. simpl. assumption.
Qed.

(** Writing lines out and reading them back gives the same lines, as
    long as no line holds a line break. *)
Lemma Split_Join (ls : list string) :
  ls ≠ [] → Forall (λ l, oneLine l = true) ls → Split (Join ls) = ls.
Proof.
  induction ls as [|e rest IH]; [congruence|].
  intros _ H. inversion H as [|? ? He Hrest]; subst.
  destruct rest as [|e' rest'].
  - simpl. apply Split_oneLine, He.
  - change (Join (e :: e' :: rest')) with (e +:+ String nl (Join (e' :: rest'))).
    rewrite Split_append_nl by exact He.
    rewrite IH; [reflexivity | discriminate | exact Hrest].
Qed.

Lemma Join_Split (s : string) : Join (Split s) = s.
Proof.
  induction s as [|c s IH]; simpl; [reflexivity|].
  destruct (Ascii.eqb c nl) eqn:E.
  - apply Ascii.eqb_eq in E. subst c.
    pose proof (Split_not_nil s) as Hne.
    destruct (Split s) as [|p rest]; [congruence|].
    simpl in *. rewrite IH. reflexivity.
  - destruct (Split s) as [|p rest]; simpl in *; [subst; reflexivity|].
    destruct rest; simpl in *; subst; reflexivity.
Qed.

Lemma prefix_append (p s : string) : String.prefix p (p +:+ s) = true.
Proof.
  induction p as [|c p IH]; simpl.
  - destruct s; reflexivity.
  - destruct (ascii_dec c c); [exact IH | congruence].
Qed.

Lemma append_assoc (a b c : string) : (a +:+ b) +:+ c = a +:+ (b +:+ c).
Proof.
  induction a as [|x a IH]; [reflexivity|].
  change (String x ((a +:+ b) +:+ c) = String x (a +:+ (b +:+ c))).
  f_equal. exact IH.
Qed.

Lemma oneLine_append (a b : string) :
  oneLine (a +:+ b) = oneLine a && oneLine b.
Proof.
  induction a as [|c a IH]; simpl; [reflexivity|].
  rewrite IH. destruct (Ascii.eqb c nl); reflexivity.
Qed.

End Lines.

Lemma entry_isKeyLine (newIP : string) : isKeyLine (entry newIP) = true.
Proof.
  unfold isKeyLine, entry, strings.HasPrefix.
  rewrite <- append_assoc. apply prefix_append.
Qed.

Lemma entry_oneLine (newIP : string) :
  strings.oneLine (entry newIP) = strings.oneLine newIP.
Proof. unfold entry. rewrite !oneLine_append. reflexivity. Qed.

(** ** The scan of [updateEnvFile] *)

Section Scan.

Variable newIP : string.

Local Abbreviation plain := (λ l : string, isKeyLine l = false).

Lemma scanLines_absent (todo : list string) (i : nat) (lines : list string) :
  Forall plain todo → scanLines newIP todo i lines = (lines, false, None).
Proof.
  revert i. induction todo as [|l todo IH]; intros i H; [reflexivity|].
  inversion H as [|? ? Hl Htodo]; subst. simpl. rewrite Hl. apply IH, Htodo.
Qed.

Lemma scanLines_first (a : list string) (l : string) (b : list string)
    (i : nat) (lines : list string) :
  Forall plain a → isKeyLine l = true →
  scanLines newIP (a ++ l :: b) i lines =
    (<[i + length a := entry newIP]> lines, true,
     Some (strings.TrimPrefix l (envKey +:+ "="))).
Proof.
  revert i. induction a as [|x a IH]; intros i Ha Hl; simpl.
  - rewrite Hl, Nat.add_0_r. reflexivity.
  - inversion Ha as [|? ? Hx Ha']; subst. rewrite Hx.
    rewrite (IH (S i) Ha' Hl).
    replace (S i + length a) with (i + S (length a)) by lia. reflexivity.
Qed.

(** Either no line carries the key, or there is a first one. *)
Lemma first_key_line (lines : list string) :
  Forall plain lines ∨
  ∃ a l b, lines = a ++ l :: b ∧ Forall plain a ∧ isKeyLine l = true.
Proof.
  induction lines as [|x lines IH]; [left; constructor|].
  destruct (isKeyLine x) eqn:Hx.
  - right. exists [], x, lines. repeat split; [constructor | exact Hx].
  - destruct IH as [IH | (a & l & b & -> & Ha & Hl)].
    + left. constructor; assumption.
    + right. exists (x :: a), l, b. repeat split; [constructor|]; assumption.
Qed.

Lemma rewriteLines_absent (lines : list string) :
  Forall plain lines → rewriteLines newIP lines = lines ++ [entry newIP].
Proof.
  intros H. unfold rewriteLines. rewrite scanLines_absent by exact H. reflexivity.
Qed.

Lemma rewriteLines_first (a : list string) (l : string) (b : list string) :
  Forall plain a → isKeyLine l = true →
  rewriteLines newIP (a ++ l :: b) = a ++ entry newIP :: b.
Proof.
  intros Ha Hl. unfold rewriteLines. rewrite scanLines_first by assumption.
  simpl. rewrite <- (Nat.add_0_r (length a)). rewrite insert_app_r. reflexivity.
Qed.

Lemma rewriteLines_not_nil (lines : list string) : rewriteLines newIP lines ≠ [].
Proof.
  destruct (first_key_line lines) as [H | (a & l & b & -> & Ha & Hl)].
  - rewrite rewriteLines_absent by exact H. destruct lines; discriminate.
  - rewrite rewriteLines_first by assumption. destruct a; discriminate.
Qed.

Lemma rewriteLines_oneLine (lines : list string) :
  strings.oneLine newIP = true →
  Forall (λ l, strings.oneLine l = true) lines →
  Forall (λ l, strings.oneLine l = true) (rewriteLines newIP lines).
Proof.
  intros Hn H.
  destruct (first_key_line lines) as [Hp | (a & l & b & -> & Ha & Hl)].
  - rewrite rewriteLines_absent by exact Hp.
    apply Forall_app; split; [exact H|]. repeat constructor.
    rewrite entry_oneLine. exact Hn.
  - rewrite rewriteLines_first by assumption.
    apply Forall_app in H as [H1 H2]. inversion H2; subst.
    apply Forall_app; split; [exact H1|]. constructor; [|assumption].
    rewrite entry_oneLine. exact Hn.
Qed.

(** Reading back what [updateEnvFile] writes gives the rewritten slice. *)
Lemma Split_newEnvContent (input : string) :
  strings.oneLine newIP = true →
  strings.Split (newEnvContent newIP input) = rewriteLines newIP (strings.Split input).
Proof.
  intros Hn. unfold newEnvContent. apply Split_Join.
  - apply rewriteLines_not_nil.
  - apply rewriteLines_oneLine; [exact Hn | apply Split_pieces_oneLine].
Qed.

Lemma filter_plain_nil (ls : list string) :
  Forall plain ls → filter (λ l, isKeyLine l = true) ls = [].
Proof.
  induction 1 as [|x ls Hx _ IH]; [reflexivity|].
  rewrite filter_cons_False by congruence. exact IH.
Qed.

(** The rewrite keeps the number of key lines, except that it makes one
    where there was none. *)
Lemma rewriteLines_count (lines : list string) :
  length (filter (λ l, isKeyLine l = true) (rewriteLines newIP lines)) =
  Nat.max 1 (length (filter (λ l, isKeyLine l = true) lines)).
Proof.
  destruct (first_key_line lines) as [Hp | (a & l & b & -> & Ha & Hl)].
  - rewrite rewriteLines_absent by exact Hp.
    rewrite filter_app, (filter_plain_nil _ Hp).
    rewrite filter_cons_True by apply entry_isKeyLine. reflexivity.
  - rewrite rewriteLines_first by assumption.
    rewrite !filter_app, (filter_plain_nil _ Ha).
    rewrite !filter_cons_True by (assumption || apply entry_isKeyLine).
    simpl. lia.
Qed.

End Scan.

(** ** [updateEnvFile] as a whole *)

(** What is not an argument of the [.env] rewrite stays as it was. *)
Lemma updateEnvFile_frame (o : Outcomes) (newIP : string) (w : World) :
  ip_store (world_of (updateEnvFile o newIP w)) = ip_store w ∧
  consecutiveErrors (world_of (updateEnvFile o newIP w)) = consecutiveErrors w.
Proof.
  unfold updateEnvFile, restartCharon. unfold_M.
  destruct (readFailed o); [split; reflexivity|].
  destruct (scanLines _ _ _ _) as [[ls found] rep].
  destruct rep, found, (written o), (dockerFailed o); split; reflexivity.
Qed.

(** Once the file could be read and written, it holds the joined slice,
    whatever docker answers afterwards. *)
Lemma updateEnvFile_content (o : Outcomes) (newIP : string) (w : World) :
  readFailed o = false → written o = Written →
  envFile (world_of (updateEnvFile o newIP w)) = newEnvContent newIP (envFile w).
Proof.
  intros Hr Hw. unfold updateEnvFile, restartCharon, newEnvContent, rewriteLines.
  unfold_M. rewrite Hr, Hw.
  destruct (scanLines _ _ _ _) as [[ls found] rep].
  destruct rep, found, (dockerFailed o); reflexivity.
Qed.

(** The error of [updateEnvFile] is decided by the three calls it makes. *)
Lemma updateEnvFile_value (o : Outcomes) (newIP : string) (w : World) :
  value_of (updateEnvFile o newIP w) =
    if readFailed o then Some ErrReadEnvFile
    else match written o with
         | WriteFailed _ => Some ErrWriteEnvFile
         | Written =>
             if dockerFailed o then Some (ErrUpdateRestart ErrRestart) else None
         end.
Proof.
  unfold updateEnvFile, restartCharon. unfold_M.
  destruct (readFailed o); [reflexivity|].
  destruct (scanLines _ _ _ _) as [[ls found] rep].
  destruct rep, found, (written o), (dockerFailed o); reflexivity.
Qed.

(** ** C2: number of key lines after an update *)

(** C2 (as stated, refuted): after a completed update at most one line
    begins with the monitored key and [=], also when the input held two
    or more.  The loop stops at the first such line, so a second one
    stays: with two key lines in, two are out. *)
Lemma C2_two_key_lines_remain :
  ¬ (∀ (o : Outcomes) (newIP : string) (w : World),
       readFailed o = false → written o = Written →
       (keyLines (envFile (world_of (updateEnvFile o newIP w))) ≤ 1)%nat).
Proof.
  intros H.
  specialize (H (calm "203.0.113.5" "")
                "203.0.113.5"
                (mkWorld ("CHARON_P2P_EXTERNAL_HOSTNAME=198.51.100.1"
                          +:+ String strings.nl "CHARON_P2P_EXTERNAL_HOSTNAME=198.51.100.2")
                         [] 0)
                eq_refl eq_refl).
  vm_compute in H. lia.
Qed.

(** C2 (amended): for a new value without a line break, a completed
    update leaves as many key lines as the input had, and one when the
    input had none; so at most one whenever the input had at most one. *)
Theorem C2_key_lines_after_update (o : Outcomes) (newIP : string) (w : World) :
  readFailed o = false → written o = Written →
  strings.oneLine newIP = true →
  keyLines (envFile (world_of (updateEnvFile o newIP w))) =
    Nat.max 1 (keyLines (envFile w))
  ∧ ((keyLines (envFile w) ≤ 1)%nat →
     keyLines (envFile (world_of (updateEnvFile o newIP w))) = 1).
Proof.
  intros Hr Hw Hn.
  assert (E : keyLines (envFile (world_of (updateEnvFile o newIP w))) =
              Nat.max 1 (keyLines (envFile w))).
  { rewrite updateEnvFile_content by assumption.
    unfold keyLines. rewrite Split_newEnvContent by exact Hn.
    apply rewriteLines_count. }
  split; [exact E | intros Hle; rewrite E; lia].
Qed.

Lemma C2_key_lines_after_update_witness :
  keyLines ("A=1" +:+ String strings.nl "CHARON_P2P_EXTERNAL_HOSTNAME=198.51.100.1") = 1 ∧
  keyLines (envFile (world_of (updateEnvFile (calm "203.0.113.5" "") "203.0.113.5"
    (mkWorld ("A=1" +:+ String strings.nl "CHARON_P2P_EXTERNAL_HOSTNAME=198.51.100.1") [] 0)))) = 1.
Proof.
  split; [reflexivity|].
  exact (proj2 (C2_key_lines_after_update (calm "203.0.113.5" "") "203.0.113.5"
                  (mkWorld ("A=1" +:+ String strings.nl "CHARON_P2P_EXTERNAL_HOSTNAME=198.51.100.1") [] 0)
                  eq_refl eq_refl eq_refl)
               (le_n 1)).
Defined.

(** ** C7: the other lines keep their text and their place *)



(** ** C8: when the fetch fails *)

Lemma getCurrentIP_nil (o : Outcomes) (w : World) (ip : string) :
  value_of (getCurrentIP o w) = (ip, None) →
  exchange o = Response StatusOK (BodyRead (Document (Some ip)))
  ∧ String.eqb ip "" = false.
Proof.
  unfold getCurrentIP, Unmarshal. unfold_M.
  destruct (exchange o) as [|code body]; simpl; [congruence|].
  destruct (code =? StatusOK)%Z eqn:E; simpl; [|congruence].
  apply Z.eqb_eq in E. subst code.
  destruct body as [|[|[s|]]]; simpl; try congruence.
  destruct (String.eqb s "") eqn:Es; simpl; [congruence|].
  intros [= ->]. split; reflexivity || assumption.
Qed.

(** C8: once a response with a readable body has arrived, [getCurrentIP]
    fails exactly when the status is not 200, the body does not decode,
    the document has no [ip], or that [ip] is empty, and then returns no
    address; in every other case it returns the decoded address, which
    is not empty. *)
Theorem C8_fetch_errors (o : Outcomes) (w : World) (code : Z) (doc : Unmarshalled) :
  exchange o = Response code (BodyRead doc) →
  let r := value_of (getCurrentIP o w) in
  (code ≠ StatusOK → r = ("", Some (ErrStatus code)))
  ∧ (code = StatusOK → doc = BadJSON → r = ("", Some ErrParse))
  ∧ (code = StatusOK → doc = Document None ∨ doc = Document (Some "") →
       r = ("", Some ErrEmptyIP))
  ∧ (code = StatusOK → ∀ ip, doc = Document (Some ip) → ip ≠ "" → r = (ip, None))
  ∧ (r.2 ≠ None ↔
       code ≠ StatusOK ∨ doc = BadJSON ∨ doc = Document None ∨ doc = Document (Some ""))
  ∧ (r.2 ≠ None → r.1 = "").
Proof.
  intros Hx r. subst r. unfold getCurrentIP, Unmarshal. unfold_M. rewrite Hx.
  destruct (Z.eqb_spec code StatusOK) as [->|Hne]; simpl.
  - destruct doc as [|[s|]]; simpl.
    + intuition congruence.
    + destruct (String.eqb_spec s "") as [->|Hs]; simpl.
      * intuition congruence.
      * intuition congruence.
    + intuition congruence.
  - intuition congruence.
Qed.

Lemma C8_fetch_errors_witness :
  value_of (getCurrentIP (calm "203.0.113.5" "") (mkWorld "" [] 0)) = ("203.0.113.5", None).
Proof.
  exact (proj1 (proj2 (proj2 (proj2
    (C8_fetch_errors (calm "203.0.113.5" "") (mkWorld "" [] 0) 200
       (Document (Some "203.0.113.5")) eq_refl))))
    eq_refl "203.0.113.5" eq_refl ltac:(discriminate)).
Defined.

(** ** The loop body, piece by piece *)

Lemma writes_app (s t : list Event) : writes (s ++ t) = writes s ++ writes t.
Proof. apply omap_app. Qed.

Lemma inserts_app (s t : list Event) : inserts (s ++ t) = inserts s ++ inserts t.
Proof. apply omap_app. Qed.

Lemma sleeps_app (s t : list Event) : sleeps (s ++ t) = sleeps s ++ sleeps t.
Proof. apply omap_app. Qed.

Lemma restarts_app (s t : list Event) : restarts (s ++ t) = (restarts s + restarts t)%nat.
Proof. unfold restarts. rewrite omap_app. apply length_app. Qed.

Lemma updateAttempted_app (s t : list Event) :
  updateAttempted (s ++ t) = updateAttempted s || updateAttempted t.
Proof. apply existsb_app. Qed.

Lemma getEnvIP_nil (o : Outcomes) (w : World) (ip : string) :
  value_of (getEnvIP o w) = (ip, None) →
  dotenvLoaded o = true ∧ getenv o = ip ∧ String.eqb ip "" = false.
Proof.
  unfold getEnvIP. unfold_M.
  destruct (dotenvLoaded o); simpl; [|congruence].
  destruct (String.eqb (getenv o) "") eqn:E; simpl; [congruence|].
  intros [= <-]. repeat split. exact E.
Qed.

(** The value [getEnvIP] returns: what [os.Getenv] gives when the load
    went through, the empty string otherwise. *)
Lemma getEnvIP_value (o : Outcomes) (w : World) :
  (value_of (getEnvIP o w)).1 = if dotenvLoaded o then getenv o else "".
Proof.
  unfold getEnvIP. unfold_M.
  destruct (dotenvLoaded o); simpl; [|reflexivity].
  destruct (String.eqb_spec (getenv o) "") as [->|]; reflexivity.
Qed.

(** The query when it does not fail: the newest row, or [ErrNoRows]. *)
Lemma queryLatest_value (o : Outcomes) (w : World) :
  queryFailed o = false → value_of (queryLatest o w) = storedOf (ip_store w).
Proof.
  intros H. unfold queryLatest, storedOf. unfold_M. rewrite H. simpl.
  destruct (last (ip_store w)); reflexivity.
Qed.

(** The condition of the code is the rule of the specification, on what
    a query that does not fail returns. *)
Lemma needsUpdate_spec (store : list string) (currentIP envIP : string) :
  needsUpdate (storedOf store).2 currentIP envIP (storedOf store).1 = true
  ↔ Spec.updateRequired store currentIP envIP.
Proof.
  unfold Spec.updateRequired, storedOf, needsUpdate.
  destruct (last store) as [stored|]; simpl;
    [|split; [intros _; left; reflexivity | reflexivity]].
  split.
  - destruct (String.eqb_spec stored currentIP) as [E1|E1]; simpl.
    + destruct (String.eqb_spec envIP "") as [E2|E2]; simpl; [discriminate|].
      destruct (String.eqb_spec envIP stored) as [E3|E3]; simpl; [discriminate|].
      intros _. right. right. split; [exact E2|].
      exists stored. split; [reflexivity | exact E3].
    + intros _. right. left. exists stored. split; [reflexivity | exact E1].
  - intros [H | [(s & Hs & Hd) | (Hne & s & Hs & Hd)]]; [discriminate H | |].
    + injection Hs as <-. apply String.eqb_neq in Hd. rewrite Hd. reflexivity.
    + injection Hs as <-. apply String.eqb_neq in Hne, Hd. rewrite Hne, Hd.
      apply orb_true_r.
Qed.

(** A failed fetch: the counter moves, a wait follows, nothing else. *)
Lemma tick_fetch_failed (o : Outcomes) (w : World) (e : error) :
  (value_of (getCurrentIP o w)).2 = Some e →
  let n := wrapInt (consecutiveErrors w + 1) in
  world_of (tick o w) = setConsecutiveErrors n w
  ∧ trace_of (tick o w) =
      [Log LogFetching; HttpGet; Log (LogFetchError n maxConsecutiveErrors e)]
      ++ (if (n >=? maxConsecutiveErrors)%Z
          then [Log LogIncreasingInterval; Sleep (checkInterval * 2)]
          else [Sleep retryInterval]).
Proof.
  unfold tick, getCurrentIP, Unmarshal. unfold_M.
  destruct (exchange o) as [|code body]; simpl.
  { intros [= <-]. destruct (_ >=? _)%Z; split; reflexivity. }
  destruct (code =? StatusOK)%Z; simpl.
  2: { intros [= <-]. destruct (_ >=? _)%Z; split; reflexivity. }
  destruct body as [|[|[s|]]]; simpl;
    try (intros [= <-]; destruct (_ >=? _)%Z; split; reflexivity).
  destruct (String.eqb s ""); simpl; [|congruence].
  intros [= <-]. destruct (_ >=? _)%Z; split; reflexivity.
Qed.

(** A successful fetch followed by a failing query: the counter is
    reset, the retry interval is waited, the decision is not reached. *)
Lemma tick_query_failed (o : Outcomes) (w : World) (ip : string) :
  value_of (getCurrentIP o w) = (ip, None) → queryFailed o = true →
  world_of (tick o w) = setConsecutiveErrors 0 w
  ∧ writes (trace_of (tick o w)) = []
  ∧ restarts (trace_of (tick o w)) = 0%nat
  ∧ inserts (trace_of (tick o w)) = []
  ∧ updateAttempted (trace_of (tick o w)) = false
  ∧ sleeps (trace_of (tick o w)) = [retryInterval].
Proof.
  intros Hf Hq. apply getCurrentIP_nil in Hf as [Hx Hne].
  unfold tick, getCurrentIP, getEnvIP, queryLatest, Unmarshal. unfold_M.
  rewrite Hx, Hq. simpl. rewrite Hne. simpl.
  destruct (dotenvLoaded o); simpl;
    [destruct (String.eqb (getenv o) ""); simpl|]; repeat split; reflexivity.
Qed.

(** A successful fetch followed by a query that does not fail: what
    comes before [reconcile] touches nothing, so the iteration shows
    what [reconcile] shows on the values read. *)
Lemma tick_fetched (o : Outcomes) (w : World) (ip : string) :
  value_of (getCurrentIP o w) = (ip, None) → queryFailed o = false →
  let envIP := (value_of (getEnvIP o w)).1 in
  let q := value_of (queryLatest o w) in
  let r := reconcile o q.2 ip envIP q.1 (setConsecutiveErrors 0 w) in
  world_of (tick o w) = world_of r
  ∧ writes (trace_of (tick o w)) = writes (trace_of r)
  ∧ restarts (trace_of (tick o w)) = restarts (trace_of r)
  ∧ inserts (trace_of (tick o w)) = inserts (trace_of r)
  ∧ updateAttempted (trace_of (tick o w)) = updateAttempted (trace_of r)
  ∧ sleeps (trace_of (tick o w)) = sleeps (trace_of r)
  ∧ (∃ pre, trace_of (tick o w) = pre ++ trace_of r).
Proof.
  intros Hf Hq. apply getCurrentIP_nil in Hf as [Hx Hne].
  unfold tick, getCurrentIP, getEnvIP, queryLatest, Unmarshal. unfold_M.
  rewrite Hx, Hq. simpl. rewrite Hne. simpl.
  destruct w as [file store n]. simpl.
  destruct (dotenvLoaded o); simpl;
    [destruct (String.eqb (getenv o) ""); simpl|];
    destruct (last store) as [stored|]; simpl;
    match goal with
    | |- context [reconcile ?a ?b ?c ?d ?e ?f] =>
        destruct (reconcile a b c d e f) as [[u w'] t] eqn:E
    end; simpl; repeat split; try reflexivity;
    match goal with
    | |- ex (λ pre, ?l = pre ++ ?t0) =>
        exists (take (length l - length t0) l); simpl;
        repeat (rewrite Nat.sub_succ_l by lia; simpl);
        rewrite Nat.sub_diag; reflexivity
    end.
Qed.

(** ** The guarded update *)

Lemma reconcile_skip (o : Outcomes) (err : option error)
    (currentIP envIP storedIP : string) (w : World) :
  needsUpdate err currentIP envIP storedIP = false →
  reconcile o err currentIP envIP storedIP w =
    (tt, w, [Log (LogNoChange currentIP); Log LogWaiting; Sleep checkInterval]).
Proof. intros H. unfold reconcile. rewrite H. reflexivity. Qed.

(** An update that is needed and fails: no INSERT, the retry interval. *)
Lemma reconcile_update_failed (o : Outcomes) (err : option error)
    (currentIP envIP storedIP : string) (w : World) :
  needsUpdate err currentIP envIP storedIP = true →
  updateSucceeds o = false →
  let r := reconcile o err currentIP envIP storedIP w in
  updateAttempted (trace_of r) = true
  ∧ inserts (trace_of r) = []
  ∧ ip_store (world_of r) = ip_store w
  ∧ consecutiveErrors (world_of r) = consecutiveErrors w
  ∧ sleeps (trace_of r) = [retryInterval]
  ∧ writes (trace_of r) =
      (if readFailed o then [] else [newEnvContent currentIP (envFile w)])
  ∧ restarts (trace_of r) =
      (if readFailed o then 0%nat
       else match written o with Written => 1%nat | WriteFailed _ => 0%nat end)
  ∧ envFile (world_of r) =
      (if readFailed o then envFile w
       else match written o with
            | Written => newEnvContent currentIP (envFile w)
            | WriteFailed residue => residue
            end).
Proof.
  intros Hn. unfold updateSucceeds, reconcile, updateEnvFile, restartCharon,
    insertIP, newEnvContent, rewriteLines. unfold_M. rewrite Hn.
  destruct (readFailed o); simpl; [intros _; repeat split; reflexivity|].
  destruct (scanLines _ _ _ _) as [[ls found] rep].
  destruct rep, found, (written o), (dockerFailed o); simpl;
    intros Hu; try discriminate Hu; repeat split; reflexivity.
Qed.

(** An update that is needed and succeeds: the file is written, docker
    is called and reports success, the INSERT is issued, the outcome of
    the INSERT is logged, and the standard interval is waited. *)
Lemma reconcile_update_succeeded (o : Outcomes) (err : option error)
    (currentIP envIP storedIP : string) (w : World) :
  needsUpdate err currentIP envIP storedIP = true →
  updateSucceeds o = true →
  let r := reconcile o err currentIP envIP storedIP w in
  let content := newEnvContent currentIP (envFile w) in
  updateAttempted (trace_of r) = true
  ∧ writes (trace_of r) = [content]
  ∧ restarts (trace_of r) = 1%nat
  ∧ inserts (trace_of r) = [currentIP]
  ∧ sleeps (trace_of r) = [checkInterval]
  ∧ envFile (world_of r) = content
  ∧ ip_store (world_of r) =
      (if insertFailed o then ip_store w else ip_store w ++ [currentIP])
  ∧ consecutiveErrors (world_of r) = consecutiveErrors w
  ∧ ∃ pre, trace_of r =
      pre ++ [WriteEnvFile content; Log LogEnvFileUpdated; Log LogRestarting;
              DockerUp; Log LogRestarted; DbInsert currentIP;
              Log (if insertFailed o then LogInsertError ErrDatabase
                   else LogInserted currentIP);
              Log LogWaiting; Sleep checkInterval].
Proof.
  intros Hn. unfold updateSucceeds, reconcile, updateEnvFile, restartCharon,
    insertIP, newEnvContent, rewriteLines. unfold_M. rewrite Hn.
  destruct (readFailed o); simpl; [discriminate|].
  destruct (scanLines _ _ _ _) as [[ls found] rep].
  destruct (written o); simpl; [|discriminate].
  destruct (dockerFailed o); simpl; [discriminate|]. intros _.
  destruct rep, found, (insertFailed o); simpl;
    repeat split; try reflexivity; suffix_of 9%nat.
Qed.

(** ** The decision of an iteration *)

(** The decision of one iteration whose fetch succeeds and whose query
    does not fail, against the rule of the specification. *)
Lemma tick_decision (o : Outcomes) (w : World) (currentIP : string) :
  value_of (getCurrentIP o w) = (currentIP, None) →
  queryFailed o = false →
  let envIP := (value_of (getEnvIP o w)).1 in
  let r := tick o w in
  (updateAttempted (trace_of r) = true
     ↔ Spec.updateRequired (ip_store w) currentIP envIP)
  ∧ (Spec.updateRequired (ip_store w) currentIP envIP →
     updateSucceeds o = true → insertFailed o = false →
       writes (trace_of r) = [newEnvContent currentIP (envFile w)]
       ∧ envFile (world_of r) = newEnvContent currentIP (envFile w)
       ∧ restarts (trace_of r) = 1%nat
       ∧ inserts (trace_of r) = [currentIP]
       ∧ ip_store (world_of r) = ip_store w ++ [currentIP])
  ∧ (¬ Spec.updateRequired (ip_store w) currentIP envIP →
       untouched w r ∧ sleeps (trace_of r) = [checkInterval]).
Proof.
  intros Hf Hq envIP r.
  destruct (tick_fetched o w currentIP Hf Hq) as (Hw & Hwr & Hre & Hin & Hat & Hsl & _).
  rewrite (queryLatest_value o w Hq) in *.
  pose proof (needsUpdate_spec (ip_store w) currentIP envIP) as Hspec.
  fold envIP in Hw, Hwr, Hre, Hin, Hat, Hsl. fold r in Hw, Hwr, Hre, Hin, Hat, Hsl.
  destruct (needsUpdate (storedOf (ip_store w)).2 currentIP envIP
              (storedOf (ip_store w)).1) eqn:Hn.
  - assert (Hreq : Spec.updateRequired (ip_store w) currentIP envIP)
      by (apply Hspec; reflexivity).
    split; [|split].
    + split; [intros _; exact Hreq|]. intros _. rewrite Hat.
      destruct (updateSucceeds o) eqn:Hu.
      * apply (reconcile_update_succeeded o _ _ _ _ _ Hn Hu).
      * apply (reconcile_update_failed o _ _ _ _ _ Hn Hu).
    + intros _ Hu Hi.
      destruct (reconcile_update_succeeded o _ _ _ _ (setConsecutiveErrors 0 w) Hn Hu)
        as (_ & Ewr & Ere & Ein & _ & Efile & Estore & _).
      rewrite Hi in Estore.
      rewrite Hw, Hwr, Hre, Hin. repeat split; assumption.
    + intros Hnot. contradiction.
  - assert (Hnot : ¬ Spec.updateRequired (ip_store w) currentIP envIP)
      by (intros H; apply Hspec in H; discriminate).
    rewrite (reconcile_skip o _ _ _ _ _ Hn) in *.
    split; [|split].
    + rewrite Hat. simpl. split; [discriminate | intros H; contradiction].
    + intros H; contradiction.
    + intros _. unfold untouched. rewrite Hw, Hwr, Hre, Hin, Hsl.
      repeat split; reflexivity.
Qed.

(** ** C1: when the update is made *)

(** C1 (as stated, refuted): the service answers 203.0.113.5, the table
    holds 198.51.100.1, so rule (b) asks for an update, but the SELECT
    fails: the iteration waits the retry interval and leaves without
    reaching the decision; nothing is written, restarted or inserted. *)
Lemma C1_query_error_skips_required_update :
  value_of (getCurrentIP (lockedDb "203.0.113.5" "198.51.100.1")
              (mkWorld "CHARON_P2P_EXTERNAL_HOSTNAME=198.51.100.1" ["198.51.100.1"] 0))
    = ("203.0.113.5", None)
  ∧ Spec.updateRequired ["198.51.100.1"] "203.0.113.5" "198.51.100.1"
  ∧ updateAttempted (trace_of (tick (lockedDb "203.0.113.5" "198.51.100.1")
      (mkWorld "CHARON_P2P_EXTERNAL_HOSTNAME=198.51.100.1" ["198.51.100.1"] 0))) = false
  ∧ untouched (mkWorld "CHARON_P2P_EXTERNAL_HOSTNAME=198.51.100.1" ["198.51.100.1"] 0)
      (tick (lockedDb "203.0.113.5" "198.51.100.1")
         (mkWorld "CHARON_P2P_EXTERNAL_HOSTNAME=198.51.100.1" ["198.51.100.1"] 0)).
Proof.
  split; [reflexivity|]. split.
  - right. left. exists "198.51.100.1". split; [reflexivity | discriminate].
  - split; [reflexivity|]. repeat split; reflexivity.
Qed.

(** C1 (amended): on an iteration whose fetch succeeds and whose query
    does not fail, [updateEnvFile] is entered exactly when rule (a), (b)
    or (c) holds; when its calls and the INSERT succeed, the file is
    written once, docker is called once and the address is appended to
    the table; when no rule holds nothing is touched and the standard
    interval is waited. *)
Theorem C1_update_iff_required (o : Outcomes) (w : World) (currentIP : string) :
  value_of (getCurrentIP o w) = (currentIP, None) →
  queryFailed o = false →
  let envIP := (value_of (getEnvIP o w)).1 in
  let r := tick o w in
  (updateAttempted (trace_of r) = true
     ↔ Spec.updateRequired (ip_store w) currentIP envIP)
  ∧ (Spec.updateRequired (ip_store w) currentIP envIP →
     updateSucceeds o = true → insertFailed o = false →
       writes (trace_of r) = [newEnvContent currentIP (envFile w)]
       ∧ envFile (world_of r) = newEnvContent currentIP (envFile w)
       ∧ restarts (trace_of r) = 1%nat
       ∧ inserts (trace_of r) = [currentIP]
       ∧ ip_store (world_of r) = ip_store w ++ [currentIP])
  ∧ (¬ Spec.updateRequired (ip_store w) currentIP envIP →
       untouched w r ∧ sleeps (trace_of r) = [checkInterval]).
Proof. exact (tick_decision o w currentIP). Qed.

Lemma C1_update_iff_required_witness :
  writes (trace_of (tick (calm "203.0.113.5" "198.51.100.1")
     (mkWorld "CHARON_P2P_EXTERNAL_HOSTNAME=198.51.100.1" ["198.51.100.1"] 0)))
    = ["CHARON_P2P_EXTERNAL_HOSTNAME=203.0.113.5"]
  ∧ ip_store (world_of (tick (calm "203.0.113.5" "198.51.100.1")
     (mkWorld "CHARON_P2P_EXTERNAL_HOSTNAME=198.51.100.1" ["198.51.100.1"] 0)))
    = ["198.51.100.1"; "203.0.113.5"].
Proof.
  destruct (C1_update_iff_required (calm "203.0.113.5" "198.51.100.1")
     (mkWorld "CHARON_P2P_EXTERNAL_HOSTNAME=198.51.100.1" ["198.51.100.1"] 0)
     "203.0.113.5" eq_refl eq_refl) as (_ & H & _).
  destruct H as (Hwr & _ & _ & _ & Hst).
  - right. left. exists "198.51.100.1". split; [reflexivity | discriminate].
  - reflexivity.
  - reflexivity.
  - split; [exact Hwr | exact Hst].
Defined.

(** ** A needed update whose file calls succeed *)

Lemma tick_update_written (o : Outcomes) (w : World) (currentIP : string) :
  value_of (getCurrentIP o w) = (currentIP, None) →
  queryFailed o = false →
  Spec.updateRequired (ip_store w) currentIP (value_of (getEnvIP o w)).1 →
  readFailed o = false → written o = Written →
  let r := tick o w in
  let content := newEnvContent currentIP (envFile w) in
  writes (trace_of r) = [content]
  ∧ envFile (world_of r) = content
  ∧ restarts (trace_of r) = 1%nat
  ∧ inserts (trace_of r) = (if dockerFailed o then [] else [currentIP])
  ∧ ip_store (world_of r) =
      (if dockerFailed o || insertFailed o then ip_store w
       else ip_store w ++ [currentIP])
  ∧ sleeps (trace_of r) = [if dockerFailed o then retryInterval else checkInterval]
  ∧ consecutiveErrors (world_of r) = 0%Z.
Proof.
  intros Hf Hq Hreq Hr Hwr r content.
  destruct (tick_fetched o w currentIP Hf Hq) as (Hw & Ewr & Ere & Ein & _ & Esl & _).
  rewrite (queryLatest_value o w Hq) in *.
  apply needsUpdate_spec in Hreq.
  fold r in Hw, Ewr, Ere, Ein, Esl. rewrite Hw, Ewr, Ere, Ein, Esl.
  destruct (dockerFailed o) eqn:Hd.
  - assert (Hu : updateSucceeds o = false)
      by (unfold updateSucceeds; rewrite Hd, andb_false_r; reflexivity).
    destruct (reconcile_update_failed o _ _ _ _ (setConsecutiveErrors 0 w) Hreq Hu)
      as (_ & Fin & Fst & Fce & Fsl & Fwr & Fre & Ffile).
    rewrite Hr, Hwr in *. simpl. repeat split; assumption.
  - assert (Hu : updateSucceeds o = true)
      by (unfold updateSucceeds; rewrite Hr, Hwr, Hd; reflexivity).
    destruct (reconcile_update_succeeded o _ _ _ _ (setConsecutiveErrors 0 w) Hreq Hu)
      as (_ & Fwr & Fre & Fin & Fsl & Ffile & Fst & Fce & _).
    simpl. repeat split; assumption.
Qed.

(** Every iteration whose fetch succeeds leaves the counter at zero. *)
Lemma tick_resets_counter (o : Outcomes) (w : World) (currentIP : string) :
  value_of (getCurrentIP o w) = (currentIP, None) →
  consecutiveErrors (world_of (tick o w)) = 0%Z.
Proof.
  intros Hf. destruct (queryFailed o) eqn:Hq.
  - destruct (tick_query_failed o w currentIP Hf Hq) as (Hw & _). rewrite Hw. reflexivity.
  - destruct (tick_fetched o w currentIP Hf Hq) as (Hw & _). rewrite Hw.
    destruct (needsUpdate (value_of (queryLatest o w)).2 currentIP
                (value_of (getEnvIP o w)).1 (value_of (queryLatest o w)).1) eqn:Hn.
    + destruct (updateSucceeds o) eqn:Hu.
      * destruct (reconcile_update_succeeded o _ _ _ _ (setConsecutiveErrors 0 w) Hn Hu)
          as (_ & _ & _ & _ & _ & _ & _ & Fce & _). exact Fce.
      * destruct (reconcile_update_failed o _ _ _ _ (setConsecutiveErrors 0 w) Hn Hu)
          as (_ & _ & _ & Fce & _). exact Fce.
    + rewrite (reconcile_skip o _ _ _ _ _ Hn). reflexivity.
Qed.

(** Whatever the outside answers, an INSERT is issued only on the path
    where docker has reported success, and directly after that report. *)
Lemma tick_insert_follows_restart (o : Outcomes) (w : World) :
  inserts (trace_of (tick o w)) ≠ [] →
  updateSucceeds o = true
  ∧ ∃ pre ip post,
      trace_of (tick o w) = pre ++ [DockerUp; Log LogRestarted; DbInsert ip] ++ post
      ∧ inserts pre = [] ∧ inserts post = [].
Proof.
  intros Hins.
  destruct (value_of (getCurrentIP o w)) as [ip [e|]] eqn:Hf.
  { exfalso. apply Hins.
    destruct (tick_fetch_failed o w e) as (_ & Ht); [rewrite Hf; reflexivity|].
    rewrite Ht. destruct (_ >=? _)%Z; reflexivity. }
  destruct (queryFailed o) eqn:Hq.
  { exfalso. apply Hins. apply (tick_query_failed o w ip Hf Hq). }
  destruct (tick_fetched o w ip Hf Hq) as (_ & _ & _ & Ein & _ & _ & pre0 & Et).
  destruct (needsUpdate (value_of (queryLatest o w)).2 ip
              (value_of (getEnvIP o w)).1 (value_of (queryLatest o w)).1) eqn:Hn.
  2: { exfalso. apply Hins. rewrite Ein, (reconcile_skip o _ _ _ _ _ Hn). reflexivity. }
  destruct (updateSucceeds o) eqn:Hu.
  2: { exfalso. apply Hins. rewrite Ein.
       apply (reconcile_update_failed o _ _ _ _ (setConsecutiveErrors 0 w) Hn Hu). }
  split; [reflexivity|].
  destruct (reconcile_update_succeeded o _ _ _ _ (setConsecutiveErrors 0 w) Hn Hu)
    as (_ & _ & _ & Fin & _ & _ & _ & _ & pre & Ft).
  rewrite Ft in Et, Fin, Ein. rewrite Et in Ein.
  rewrite !inserts_app in Fin, Ein.
  remember (inserts pre) as a eqn:Ea. remember (inserts pre0) as b eqn:Eb.
  simpl in Fin, Ein.
  assert (Hpre : a = []).
  { apply (f_equal length) in Fin. rewrite length_app in Fin. simpl in Fin.
    destruct a; [reflexivity | simpl in Fin; lia]. }
  assert (Hpre0 : b = []).
  { apply (f_equal length) in Ein. rewrite !length_app in Ein. simpl in Ein.
    destruct b; [reflexivity | simpl in Ein; lia]. }
  subst a b.
  exists (pre0 ++ pre ++ [WriteEnvFile (newEnvContent ip (envFile (setConsecutiveErrors 0 w)));
                          Log LogEnvFileUpdated; Log LogRestarting]), ip,
         [Log (if insertFailed o then LogInsertError ErrDatabase else LogInserted ip);
          Log LogWaiting; Sleep checkInterval].
  split; [|split].
  - rewrite Et, <- !app_assoc. reflexivity.
  - rewrite !inserts_app, Hpre0, Hpre. reflexivity.
  - reflexivity.
Qed.

(** ** Further facts shared by the claims *)

Lemma getCurrentIP_value (o : Outcomes) (w : World) :
  value_of (getCurrentIP o w) = fetchOf o.
Proof.
  unfold fetchOf, getCurrentIP, Unmarshal. unfold_M.
  destruct (exchange o) as [|code body]; simpl; [reflexivity|].
  destruct (code =? StatusOK)%Z; simpl; [|reflexivity].
  destruct body as [|[|[s|]]]; simpl; try reflexivity.
  destruct (String.eqb s ""); reflexivity.
Qed.

(** Once the fetch has succeeded the query is issued, whatever
    [getEnvIP] returned. *)
Lemma tick_queries (o : Outcomes) (w : World) (ip : string) :
  value_of (getCurrentIP o w) = (ip, None) → queried (trace_of (tick o w)) = true.
Proof.
  intros Hf. apply getCurrentIP_nil in Hf as [Hx Hne].
  unfold tick, getCurrentIP, getEnvIP, queryLatest, Unmarshal. unfold_M.
  rewrite Hx. simpl. rewrite Hne. simpl.
  destruct w as [file store n]. simpl.
  destruct (dotenvLoaded o); simpl;
    [destruct (String.eqb (getenv o) ""); simpl|];
    destruct (queryFailed o); simpl; try reflexivity;
    destruct (last store) as [stored|]; simpl;
    match goal with
    | |- context [reconcile ?a ?b ?c ?d ?e ?f] =>
        destruct (reconcile a b c d e f) as [[u w'] t]
    end; reflexivity.
Qed.

(** Without an INSERT in the trace the table is as before. *)
Lemma tick_store_without_insert (o : Outcomes) (w : World) :
  inserts (trace_of (tick o w)) = [] → ip_store (world_of (tick o w)) = ip_store w.
Proof.
  intros Hins.
  destruct (value_of (getCurrentIP o w)) as [ip [e|]] eqn:Hf.
  { destruct (tick_fetch_failed o w e) as (Hw & _); [rewrite Hf; reflexivity|].
    rewrite Hw. reflexivity. }
  destruct (queryFailed o) eqn:Hq.
  { destruct (tick_query_failed o w ip Hf Hq) as (Hw & _). rewrite Hw. reflexivity. }
  destruct (tick_fetched o w ip Hf Hq) as (Hw & _ & _ & Ein & _).
  rewrite Hw. rewrite Ein in Hins.
  destruct (needsUpdate (value_of (queryLatest o w)).2 ip
              (value_of (getEnvIP o w)).1 (value_of (queryLatest o w)).1) eqn:Hn.
  2: { rewrite (reconcile_skip o _ _ _ _ _ Hn). reflexivity. }
  destruct (updateSucceeds o) eqn:Hu.
  - destruct (reconcile_update_succeeded o _ _ _ _ (setConsecutiveErrors 0 w) Hn Hu)
      as (_ & _ & _ & Fin & _). rewrite Fin in Hins. discriminate.
  - apply (reconcile_update_failed o _ _ _ _ (setConsecutiveErrors 0 w) Hn Hu).
Qed.


Lemma wrapInt_succ (z : Z) : canCount z → wrapInt (z + 1) = (z + 1)%Z.
Proof.
  unfold canCount, wrapInt. intros H.
  change (2 ^ 63)%Z with 9223372036854775808%Z in *.
  change (2 ^ 64)%Z with 18446744073709551616%Z.
  rewrite Z.mod_small by lia. lia.
Qed.

Lemma run_cons (o : Outcomes) (os : list Outcomes) (w : World) :
  world_of (run (o :: os) w) = world_of (run os (world_of (tick o w)))
  ∧ trace_of (run (o :: os) w) =
      trace_of (tick o w) ++ trace_of (run os (world_of (tick o w))).
Proof.
  simpl. unfold_M. destruct (tick o w) as [[u w1] t1]. simpl.
  destruct (run os w1) as [[u' w2] t2]. split; reflexivity.
Qed.

Lemma backoff_short (n : Z) : (n < maxConsecutiveErrors)%Z → backoff n = retryInterval.
Proof.
  intros H. unfold backoff. destruct (Z.geb_spec n maxConsecutiveErrors); [lia | reflexivity].
Qed.

Lemma backoff_long (n : Z) : (maxConsecutiveErrors ≤ n)%Z → backoff n = (checkInterval * 2)%Z.
Proof.
  intros H. unfold backoff. destruct (Z.geb_spec n maxConsecutiveErrors); [reflexivity | lia].
Qed.

Lemma backoffs_lookup (k : nat) (c : Z) (i : nat) :
  (i < k)%nat → backoffs c k !! i = Some (backoff (c + Z.of_nat i + 1)).
Proof.
  revert c i. induction k as [|k IH]; intros c i Hi; [lia|].
  destruct i as [|i]; simpl.
  - f_equal. f_equal. lia.
  - rewrite IH by lia. f_equal. f_equal. lia.
Qed.

(** One failed fetch, the counter not being at the top of [int]. *)
Lemma tick_failure (o : Outcomes) (w : World) (e : error) :
  (fetchOf o).2 = Some e → canCount (consecutiveErrors w) →
  let n := (consecutiveErrors w + 1)%Z in
  world_of (tick o w) = setConsecutiveErrors n w
  ∧ trace_of (tick o w) =
      [Log LogFetching; HttpGet; Log (LogFetchError n maxConsecutiveErrors e)]
      ++ (if (n >=? maxConsecutiveErrors)%Z
          then [Log LogIncreasingInterval; Sleep (checkInterval * 2)]
          else [Sleep retryInterval])
  ∧ sleeps (trace_of (tick o w)) = [backoff n]
  ∧ writes (trace_of (tick o w)) = []
  ∧ restarts (trace_of (tick o w)) = 0%nat
  ∧ inserts (trace_of (tick o w)) = []
  ∧ updateAttempted (trace_of (tick o w)) = false
  ∧ queried (trace_of (tick o w)) = false.
Proof.
  intros Hf Hc n. rewrite <- (getCurrentIP_value o w) in Hf.
  destruct (tick_fetch_failed o w e Hf) as (Hw & Ht).
  rewrite (wrapInt_succ _ Hc) in Hw, Ht. fold n in Hw, Ht.
  split; [exact Hw|]. split; [exact Ht|].
  rewrite Ht. unfold backoff.
  destruct (n >=? maxConsecutiveErrors)%Z; repeat split; reflexivity.
Qed.

(** A run of failed fetches. *)
Lemma run_failures (os : list Outcomes) (w : World) :
  Forall (λ o, (fetchOf o).2 ≠ None) os →
  (0 ≤ consecutiveErrors w)%Z →
  (consecutiveErrors w + Z.of_nat (length os) < 2 ^ 63)%Z →
  world_of (run os w) =
    setConsecutiveErrors (consecutiveErrors w + Z.of_nat (length os)) w
  ∧ sleeps (trace_of (run os w)) = backoffs (consecutiveErrors w) (length os)
  ∧ writes (trace_of (run os w)) = []
  ∧ restarts (trace_of (run os w)) = 0%nat
  ∧ inserts (trace_of (run os w)) = []
  ∧ updateAttempted (trace_of (run os w)) = false
  ∧ queried (trace_of (run os w)) = false.
Proof.
  revert w. induction os as [|o os IH]; intros w Hall H0 Hlt.
  - simpl. rewrite Z.add_0_r. destruct w; repeat split; reflexivity.
  - inversion Hall as [|? ? Ho Hos]; subst.
    destruct (fetchOf o).2 as [e|] eqn:He; [|congruence].
    simpl length in Hlt.
    assert (Hc : canCount (consecutiveErrors w)).
    { unfold canCount. change (2 ^ 63)%Z with 9223372036854775808%Z in *. lia. }
    destruct (tick_failure o w e He Hc) as (Hw & _ & Hs & Hwr & Hre & Hin & Hat & Hqu).
    destruct (run_cons o os w) as (Rw & Rt). rewrite Rw, Rt, Hw.
    specialize (IH (setConsecutiveErrors (consecutiveErrors w + 1) w) Hos).
    simpl consecutiveErrors in IH.
    destruct IH as (Iw & Is & Iwr & Ire & Iin & Iat & Iq); [lia | lia |].
    rewrite writes_app, restarts_app, inserts_app, sleeps_app, updateAttempted_app.
    unfold queried in *. rewrite existsb_app.
    rewrite Iw, Is, Iwr, Ire, Iin, Iat, Iq, Hs, Hwr, Hre, Hin, Hat, Hqu.
    repeat split.
    unfold setConsecutiveErrors. simpl. f_equal. lia.
Qed.

(** ** C3: a failed restart keeps the address out of the table *)

(** C3: on an iteration in which docker fails no INSERT is issued and the
    table is unchanged; in particular when the update was needed and the
    file was written, the file holds the new content, docker was called
    once, and the iteration ends on the retry interval without an
    INSERT.  On every iteration, an INSERT in the trace comes directly
    after docker was called and reported success. *)
Theorem C3_failed_restart_blocks_insert (o : Outcomes) (w : World) :
  (dockerFailed o = true →
     inserts (trace_of (tick o w)) = [] ∧ ip_store (world_of (tick o w)) = ip_store w)
  ∧ (∀ currentIP,
       value_of (getCurrentIP o w) = (currentIP, None) → queryFailed o = false →
       Spec.updateRequired (ip_store w) currentIP (value_of (getEnvIP o w)).1 →
       readFailed o = false → written o = Written → dockerFailed o = true →
       writes (trace_of (tick o w)) = [newEnvContent currentIP (envFile w)]
       ∧ envFile (world_of (tick o w)) = newEnvContent currentIP (envFile w)
       ∧ restarts (trace_of (tick o w)) = 1%nat
       ∧ inserts (trace_of (tick o w)) = []
       ∧ ip_store (world_of (tick o w)) = ip_store w
       ∧ sleeps (trace_of (tick o w)) = [retryInterval])
  ∧ (inserts (trace_of (tick o w)) ≠ [] →
       dockerFailed o = false
       ∧ ∃ pre ip post,
           trace_of (tick o w) = pre ++ [DockerUp; Log LogRestarted; DbInsert ip] ++ post
           ∧ inserts pre = [] ∧ inserts post = []).
Proof.
  split; [|split].
  - intros Hd.
    assert (Hnone : inserts (trace_of (tick o w)) = []).
    { destruct (inserts (trace_of (tick o w))) as [|x l] eqn:E; [reflexivity|].
      destruct (tick_insert_follows_restart o w) as (Hu & _); [rewrite E; discriminate|].
      unfold updateSucceeds in Hu. rewrite Hd, andb_false_r in Hu. discriminate. }
    split; [exact Hnone | apply tick_store_without_insert, Hnone].
  - intros ip Hf Hq Hreq Hr Hwr Hd.
    destruct (tick_update_written o w ip Hf Hq Hreq Hr Hwr)
      as (Ewr & Efile & Ere & Ein & Est & Esl & _).
    rewrite Hd in *. simpl in Est. repeat split; assumption.
  - intros Hins. destruct (tick_insert_follows_restart o w Hins) as (Hu & Hex).
    split; [|exact Hex].
    unfold updateSucceeds in Hu. destruct (dockerFailed o); [|reflexivity].
    rewrite andb_false_r in Hu. discriminate.
Qed.

Lemma C3_failed_restart_blocks_insert_witness :
  writes (trace_of (tick (dockerDown "203.0.113.5" "198.51.100.1")
     (mkWorld "CHARON_P2P_EXTERNAL_HOSTNAME=198.51.100.1" ["198.51.100.1"] 0)))
    = ["CHARON_P2P_EXTERNAL_HOSTNAME=203.0.113.5"]
  ∧ restarts (trace_of (tick (dockerDown "203.0.113.5" "198.51.100.1")
     (mkWorld "CHARON_P2P_EXTERNAL_HOSTNAME=198.51.100.1" ["198.51.100.1"] 0))) = 1%nat
  ∧ inserts (trace_of (tick (dockerDown "203.0.113.5" "198.51.100.1")
     (mkWorld "CHARON_P2P_EXTERNAL_HOSTNAME=198.51.100.1" ["198.51.100.1"] 0))) = []
  ∧ ip_store (world_of (tick (dockerDown "203.0.113.5" "198.51.100.1")
     (mkWorld "CHARON_P2P_EXTERNAL_HOSTNAME=198.51.100.1" ["198.51.100.1"] 0)))
    = ["198.51.100.1"].
Proof.
  destruct (C3_failed_restart_blocks_insert (dockerDown "203.0.113.5" "198.51.100.1")
     (mkWorld "CHARON_P2P_EXTERNAL_HOSTNAME=198.51.100.1" ["198.51.100.1"] 0))
    as (_ & H & _).
  destruct (H "203.0.113.5") as (Hwr & _ & Hre & Hin & Hst & _);
    try reflexivity.
  - right. left. exists "198.51.100.1". split; [reflexivity | discriminate].
  - repeat split; assumption.
Defined.

(** ** C4: drift of the config value alone *)



(** ** C5: agreement of the three values *)



(** ** C6: fetch failures in a row *)

(** C6: a run of fetch failures that starts with the counter at [c ≥ 0]
    and does not exhaust [int] adds one to the counter per failure; the
    failure that brings the counter to [n] is followed by one wait, the
    retry interval when [n < 5] and twice the check interval when
    [n ≥ 5]; nothing is written, restarted, inserted, read from the
    file or queried, and file and table stay as they were.  An
    iteration whose fetch succeeds leaves the counter at 0. *)
Theorem C6_failure_backoff (os : list Outcomes) (o : Outcomes) (w : World) :
  (Forall (λ o, (fetchOf o).2 ≠ None) os →
   (0 ≤ consecutiveErrors w)%Z →
   (consecutiveErrors w + Z.of_nat (length os) < 2 ^ 63)%Z →
     consecutiveErrors (world_of (run os w)) =
       (consecutiveErrors w + Z.of_nat (length os))%Z
     ∧ length (sleeps (trace_of (run os w))) = length os
     ∧ (∀ i : nat, (i < length os)%nat →
          let n := (consecutiveErrors w + Z.of_nat i + 1)%Z in
          sleeps (trace_of (run os w)) !! i = Some (backoff n)
          ∧ ((n < 5)%Z → backoff n = retryInterval)
          ∧ ((5 ≤ n)%Z → backoff n = (checkInterval * 2)%Z))
     ∧ untouched w (run os w)
     ∧ updateAttempted (trace_of (run os w)) = false
     ∧ queried (trace_of (run os w)) = false)
  ∧ (∀ ip, fetchOf o = (ip, None) → consecutiveErrors (world_of (tick o w)) = 0%Z).
Proof.
  split.
  - intros Hall H0 Hlt.
    destruct (run_failures os w Hall H0 Hlt) as (Hw & Hs & Hwr & Hre & Hin & Hat & Hq).
    assert (Hlen : ∀ c k, length (backoffs c k) = k).
    { intros c k. revert c. induction k as [|k IH]; intros c; simpl;
        [reflexivity | rewrite IH; reflexivity]. }
    rewrite Hw, Hs. unfold untouched. rewrite Hw, Hwr, Hre, Hin.
    repeat split; try reflexivity; try assumption.
    + apply Hlen.
    + apply backoffs_lookup. assumption.
    + apply backoff_short.
    + apply backoff_long.
  - intros ip Hf. rewrite <- (getCurrentIP_value o w) in Hf.
    apply (tick_resets_counter o w ip Hf).
Qed.

Lemma C6_failure_backoff_witness :
  sleeps (trace_of (run [offline; offline; offline; offline; offline; offline]
                        (mkWorld "" [] 0)))
    !! 3%nat = Some retryInterval
  ∧ sleeps (trace_of (run [offline; offline; offline; offline; offline; offline]
                        (mkWorld "" [] 0)))
    !! 4%nat = Some (checkInterval * 2)%Z
  ∧ consecutiveErrors (world_of (tick (calm "203.0.113.5" "203.0.113.5")
      (mkWorld "" ["203.0.113.5"] 6))) = 0%Z.
Proof.
  destruct (C6_failure_backoff [offline; offline; offline; offline; offline; offline]
              (calm "203.0.113.5" "203.0.113.5") (mkWorld "" [] 0)) as (H & _).
  destruct H as (_ & _ & Hi & _).
  - repeat constructor; discriminate.
  - simpl. lia.
  - simpl. reflexivity.
  - split; [exact (proj1 (Hi 3%nat ltac:(simpl; lia)))|].
    split; [exact (proj1 (Hi 4%nat ltac:(simpl; lia)))|].
    exact (proj2 (C6_failure_backoff [] (calm "203.0.113.5" "203.0.113.5")
                    (mkWorld "" ["203.0.113.5"] 6)) "203.0.113.5" eq_refl).
Defined.

(** ** C9: a failed INSERT *)

(** C9: when the update is needed, the file is written and docker
    succeeds but the INSERT fails, the file keeps the new content and is
    written only once, the table is unchanged, the INSERT is issued once
    and is followed by the log line of its failure, the waiting line and
    the wait of the check interval, which is the only wait of the
    iteration. *)
Theorem C9_failed_insert_is_logged (o : Outcomes) (w : World) (currentIP : string) :
  value_of (getCurrentIP o w) = (currentIP, None) →
  queryFailed o = false →
  Spec.updateRequired (ip_store w) currentIP (value_of (getEnvIP o w)).1 →
  updateSucceeds o = true →
  insertFailed o = true →
  let r := tick o w in
  envFile (world_of r) = newEnvContent currentIP (envFile w)
  ∧ writes (trace_of r) = [newEnvContent currentIP (envFile w)]
  ∧ restarts (trace_of r) = 1%nat
  ∧ inserts (trace_of r) = [currentIP]
  ∧ ip_store (world_of r) = ip_store w
  ∧ sleeps (trace_of r) = [checkInterval]
  ∧ ∃ pre, trace_of r =
      pre ++ [DockerUp; Log LogRestarted; DbInsert currentIP;
              Log (LogInsertError ErrDatabase); Log LogWaiting; Sleep checkInterval].
Proof.
  intros Hf Hq Hreq Hu Hi r.
  destruct (tick_fetched o w currentIP Hf Hq) as (Hw & Ewr & Ere & Ein & _ & Esl & pre0 & Et).
  rewrite (queryLatest_value o w Hq) in *.
  apply needsUpdate_spec in Hreq.
  destruct (reconcile_update_succeeded o _ _ _ _ (setConsecutiveErrors 0 w) Hreq Hu)
    as (_ & Fwr & Fre & Fin & Fsl & Ffile & Fst & _ & pre & Ft).
  rewrite Hi in Fst, Ft.
  fold r in Hw, Ewr, Ere, Ein, Esl, Et. rewrite Hw, Ewr, Ere, Ein, Esl.
  repeat split; try assumption.
  exists (pre0 ++ pre ++ [WriteEnvFile (newEnvContent currentIP (envFile (setConsecutiveErrors 0 w)));
                          Log LogEnvFileUpdated; Log LogRestarting]).
  rewrite Et, Ft, <- !app_assoc. reflexivity.
Qed.

Lemma C9_failed_insert_is_logged_witness :
  envFile (world_of (tick (insertBroken "203.0.113.5" "198.51.100.1")
     (mkWorld "CHARON_P2P_EXTERNAL_HOSTNAME=198.51.100.1" ["198.51.100.1"] 0)))
    = "CHARON_P2P_EXTERNAL_HOSTNAME=203.0.113.5"
  ∧ ip_store (world_of (tick (insertBroken "203.0.113.5" "198.51.100.1")
     (mkWorld "CHARON_P2P_EXTERNAL_HOSTNAME=198.51.100.1" ["198.51.100.1"] 0)))
    = ["198.51.100.1"]
  ∧ sleeps (trace_of (tick (insertBroken "203.0.113.5" "198.51.100.1")
     (mkWorld "CHARON_P2P_EXTERNAL_HOSTNAME=198.51.100.1" ["198.51.100.1"] 0)))
    = [checkInterval].
Proof.
  destruct (C9_failed_insert_is_logged (insertBroken "203.0.113.5" "198.51.100.1")
     (mkWorld "CHARON_P2P_EXTERNAL_HOSTNAME=198.51.100.1" ["198.51.100.1"] 0)
     "203.0.113.5" eq_refl eq_refl) as (Hfile & _ & _ & _ & Hst & Hsl & _).
  - right. left. exists "198.51.100.1". split; [reflexivity | discriminate].
  - reflexivity.
  - reflexivity.
  - repeat split; assumption.
Defined.

(** ** C10: a config record that cannot be read *)

(** C10: [getEnvIP] returns the empty string together with its error
    both when the load fails and when the key is empty or absent; with
    that reading rule (c) is off, so that after a successful fetch the
    query is still issued and, when it does not fail, the update is
    entered exactly when rule (a) or (b) holds. *)
Theorem C10_unreadable_config_reads_absent (o : Outcomes) (w : World) :
  (dotenvLoaded o = false → value_of (getEnvIP o w) = ("", Some ErrLoadEnv))
  ∧ (dotenvLoaded o = true → getenv o = "" →
       value_of (getEnvIP o w) = ("", Some ErrNoEnvIP))
  ∧ ((value_of (getEnvIP o w)).2 ≠ None →
       (value_of (getEnvIP o w)).1 = ""
       ∧ (∀ err currentIP storedIP,
            needsUpdate err currentIP (value_of (getEnvIP o w)).1 storedIP =
              isNoRows err || (isNil err && negb (String.eqb storedIP currentIP)))
       ∧ ∀ currentIP,
           value_of (getCurrentIP o w) = (currentIP, None) →
           queried (trace_of (tick o w)) = true
           ∧ (queryFailed o = false →
                (updateAttempted (trace_of (tick o w)) = true
                 ↔ last (ip_store w) = None
                   ∨ ∃ stored, last (ip_store w) = Some stored ∧ stored ≠ currentIP))).
Proof.
  split; [|split].
  - intros H. unfold getEnvIP. unfold_M. rewrite H. reflexivity.
  - intros H E. unfold getEnvIP. unfold_M. rewrite H, E. reflexivity.
  - intros Herr.
    assert (Hempty : (value_of (getEnvIP o w)).1 = "").
    { revert Herr. unfold getEnvIP. unfold_M.
      destruct (dotenvLoaded o); simpl; [|reflexivity].
      destruct (String.eqb (getenv o) ""); simpl; [reflexivity | congruence]. }
    split; [exact Hempty|]. split.
    + intros err ip stored. rewrite Hempty. unfold needsUpdate. simpl.
      rewrite orb_false_r. reflexivity.
    + intros ip Hf. split; [apply (tick_queries o w ip Hf)|].
      intros Hq. destruct (tick_decision o w ip Hf Hq) as (Hiff & _).
      rewrite Hiff, Hempty. unfold Spec.updateRequired.
      split; [intros [H | [H | (H & _)]]; [left | right | congruence]; exact H|].
      intros [H | H]; [left | right; left]; exact H.
Qed.

Lemma C10_unreadable_config_reads_absent_witness :
  value_of (getEnvIP
     (mkOutcomes (Response 200 (BodyRead (Document (Some "203.0.113.5"))))
                 false "198.51.100.1" false false Written false false)
     (mkWorld "" ["203.0.113.5"] 0)) = ("", Some ErrLoadEnv)
  ∧ updateAttempted (trace_of (tick
     (mkOutcomes (Response 200 (BodyRead (Document (Some "203.0.113.5"))))
                 false "198.51.100.1" false false Written false false)
     (mkWorld "" ["203.0.113.5"] 0))) = false.
Proof.
  destruct (C10_unreadable_config_reads_absent
     (mkOutcomes (Response 200 (BodyRead (Document (Some "203.0.113.5"))))
                 false "198.51.100.1" false false Written false false)
     (mkWorld "" ["203.0.113.5"] 0)) as (H1 & _ & H3).
  split; [exact (H1 eq_refl)|].
  destruct H3 as (_ & _ & H); [rewrite (H1 eq_refl); discriminate|].
  destruct (H "203.0.113.5" eq_refl) as (_ & Hiff).
  reflexivity.
Defined.

(** * Further properties of the code *)

(** ** [updateEnvFile]: errors, and how updates compose *)

(** X1: docker is called only after the file has been read and written.
    A failing read returns its error with the file, the table and the
    counter as they were and nothing written; a failing write returns its
    error without calling docker; and docker is called, once, exactly
    when both went through. *)
Theorem X1_update_errors_skip_restart (o : Outcomes) (newIP : string) (w : World) :
  (readFailed o = true →
     updateEnvFile o newIP w =
       (Some ErrReadEnvFile, w, [Log (LogUpdatingEnvFile newIP); ReadEnvFile]))
  ∧ (∀ residue, readFailed o = false → written o = WriteFailed residue →
       value_of (updateEnvFile o newIP w) = Some ErrWriteEnvFile
       ∧ envFile (world_of (updateEnvFile o newIP w)) = residue
       ∧ writes (trace_of (updateEnvFile o newIP w)) = [newEnvContent newIP (envFile w)]
       ∧ restarts (trace_of (updateEnvFile o newIP w)) = 0%nat)
  ∧ (restarts (trace_of (updateEnvFile o newIP w)) =
       if negb (readFailed o) && match written o with Written => true | _ => false end
       then 1%nat else 0%nat)
  ∧ inserts (trace_of (updateEnvFile o newIP w)) = [].
Proof.
  unfold updateEnvFile, restartCharon, newEnvContent, rewriteLines. unfold_M.
  destruct (readFailed o); simpl.
  { repeat split; try reflexivity; discriminate. }
  destruct (scanLines _ _ _ _) as [[ls found] rep].
  destruct rep, found, (written o) as [|res], (dockerFailed o); simpl;
    repeat split; intros; simplify_eq; repeat split; reflexivity.
Qed.

Lemma X1_update_errors_skip_restart_witness :
  envFile (world_of (updateEnvFile
     (mkOutcomes NoResponse true "" false false (WriteFailed "") false false)
     "203.0.113.5" (mkWorld "A=1" [] 0))) = ""
  ∧ restarts (trace_of (updateEnvFile
     (mkOutcomes NoResponse true "" false false (WriteFailed "") false false)
     "203.0.113.5" (mkWorld "A=1" [] 0))) = 0%nat.
Proof.
  destruct (X1_update_errors_skip_restart
     (mkOutcomes NoResponse true "" false false (WriteFailed "") false false)
     "203.0.113.5" (mkWorld "A=1" [] 0)) as (_ & H & _).
  destruct (H "" eq_refl eq_refl) as (_ & Hfile & _ & Hre).
  split; [exact Hfile | exact Hre].
Defined.

Lemma Join_snoc (ls : list string) (e : string) :
  ls ≠ [] → strings.Join (ls ++ [e]) = strings.Join ls +:+ String strings.nl e.
Proof.
  induction ls as [|x ls IH]; [congruence|]. intros _.
  destruct ls as [|y ls]; [reflexivity|].
  change (strings.Join ((x :: y :: ls) ++ [e]))
    with (x +:+ String strings.nl (strings.Join ((y :: ls) ++ [e]))).
  rewrite IH by discriminate.
  change (strings.Join (x :: y :: ls))
    with (x +:+ String strings.nl (strings.Join (y :: ls))).
  rewrite append_assoc. reflexivity.
Qed.

(** X2: without a line that begins with the key and [=], the content
    written is the content read followed by a line break and [key=newIP];
    nothing of the input is dropped or reordered.  An empty file thus
    becomes a blank line followed by the entry, and a file that ends with
    a line break gets a blank line before the entry. *)
Theorem X2_append_keeps_content (newIP input : string) :
  (∀ line, line ∈ strings.Split input → isKeyLine line = false) →
  newEnvContent newIP input = input +:+ String strings.nl (envKey +:+ "=" +:+ newIP).
Proof.
  intros H. unfold newEnvContent.
  rewrite rewriteLines_absent by (rewrite Forall_forall; exact H).
  rewrite Join_snoc by apply Split_not_nil.
  rewrite Join_Split. reflexivity.
Qed.

Lemma X2_append_keeps_content_witness :
  newEnvContent "203.0.113.5" "" =
    String strings.nl "CHARON_P2P_EXTERNAL_HOSTNAME=203.0.113.5".
Proof.
  apply (X2_append_keeps_content "203.0.113.5" "").
  intros line Hin. apply list_elem_of_singleton in Hin. subst line. reflexivity.
Defined.

Lemma rewriteLines_twice (ip1 ip2 : string) (lines : list string) :
  rewriteLines ip2 (rewriteLines ip1 lines) = rewriteLines ip2 lines.
Proof.
  destruct (first_key_line lines) as [H | (a & l & b & -> & Ha & Hl)].
  - rewrite (rewriteLines_absent ip1 lines), (rewriteLines_absent ip2 lines) by exact H.
    rewrite (rewriteLines_first ip2 lines (entry ip1) [] H (entry_isKeyLine ip1)).
    reflexivity.
  - rewrite (rewriteLines_first ip1 a l b), (rewriteLines_first ip2 a l b) by assumption.
    apply rewriteLines_first; [exact Ha | apply entry_isKeyLine].
Qed.

(** X3: the last update wins.  Two completed updates in a row leave the
    file that the second alone would have left, provided the first value
    holds no line break; with the same value twice, the second update
    rewrites the file with the content it already has. *)
Theorem X3_last_update_wins (o1 o2 : Outcomes) (ip1 ip2 : string) (w : World) :
  readFailed o1 = false → written o1 = Written →
  readFailed o2 = false → written o2 = Written →
  strings.oneLine ip1 = true →
  let w1 := world_of (updateEnvFile o1 ip1 w) in
  envFile (world_of (updateEnvFile o2 ip2 w1)) = envFile (world_of (updateEnvFile o2 ip2 w))
  ∧ envFile (world_of (updateEnvFile o2 ip1 w1)) = envFile w1.
Proof.
  intros Hr1 Hw1 Hr2 Hw2 Hn w1.
  assert (E : ∀ ip, envFile (world_of (updateEnvFile o2 ip w1)) = newEnvContent ip (envFile w)).
  { intros ip. rewrite updateEnvFile_content by assumption.
    unfold w1. rewrite updateEnvFile_content by assumption.
    unfold newEnvContent at 1. rewrite Split_newEnvContent by exact Hn.
    rewrite rewriteLines_twice. reflexivity. }
  split.
  - rewrite E. symmetry. apply updateEnvFile_content; assumption.
  - rewrite E. unfold w1. symmetry. apply updateEnvFile_content; assumption.
Qed.

Lemma X3_last_update_wins_witness :
  envFile (world_of (updateEnvFile (calm "" "") "203.0.113.5"
    (world_of (updateEnvFile (calm "" "") "198.51.100.1" (mkWorld "A=1" [] 0)))))
  = envFile (world_of (updateEnvFile (calm "" "") "203.0.113.5" (mkWorld "A=1" [] 0))).
Proof.
  exact (proj1 (X3_last_update_wins (calm "" "") (calm "" "") "198.51.100.1" "203.0.113.5"
                  (mkWorld "A=1" [] 0) eq_refl eq_refl eq_refl eq_refl eq_refl)).
Defined.

Lemma updateEnvFile_calls (o : Outcomes) (newIP : string) (w : World) :
  readFailed o = false → written o = Written →
  writes (trace_of (updateEnvFile o newIP w)) = [newEnvContent newIP (envFile w)]
  ∧ restarts (trace_of (updateEnvFile o newIP w)) = 1%nat.
Proof.
  intros Hr Hw. unfold updateEnvFile, restartCharon, newEnvContent, rewriteLines.
  unfold_M. rewrite Hr, Hw.
  destruct (scanLines _ _ _ _) as [[ls found] rep].
  destruct rep, found, (dockerFailed o); split; reflexivity.
Qed.

(** X4: [updateEnvFile] does not look at the old value.  When the first
    line with the key already reads [key=newIP], the file is written
    back byte for byte as it was, and docker is called all the same. *)
Theorem X4_current_value_still_restarts (o : Outcomes) (newIP : string) (w : World)
    (a b : list string) :
  readFailed o = false → written o = Written →
  strings.Split (envFile w) = a ++ (envKey +:+ "=" +:+ newIP) :: b →
  Forall (λ l, isKeyLine l = false) a →
  envFile (world_of (updateEnvFile o newIP w)) = envFile w
  ∧ writes (trace_of (updateEnvFile o newIP w)) = [envFile w]
  ∧ restarts (trace_of (updateEnvFile o newIP w)) = 1%nat.
Proof.
  intros Hr Hw Hs Ha.
  assert (E : newEnvContent newIP (envFile w) = envFile w).
  { unfold newEnvContent. fold (entry newIP) in Hs. rewrite Hs.
    rewrite (rewriteLines_first newIP a (entry newIP) b Ha (entry_isKeyLine newIP)).
    rewrite <- Hs. apply Join_Split. }
  destruct (updateEnvFile_calls o newIP w Hr Hw) as (Ewr & Ere).
  rewrite updateEnvFile_content, Ewr, E by assumption. repeat split. exact Ere.
Qed.

Lemma X4_current_value_still_restarts_witness :
  envFile (world_of (updateEnvFile (calm "" "") "203.0.113.5"
     (mkWorld ("A=1" +:+ String strings.nl "CHARON_P2P_EXTERNAL_HOSTNAME=203.0.113.5") [] 0)))
    = "A=1" +:+ String strings.nl "CHARON_P2P_EXTERNAL_HOSTNAME=203.0.113.5"
  ∧ restarts (trace_of (updateEnvFile (calm "" "") "203.0.113.5"
     (mkWorld ("A=1" +:+ String strings.nl "CHARON_P2P_EXTERNAL_HOSTNAME=203.0.113.5") [] 0)))
    = 1%nat.
Proof.
  destruct (X4_current_value_still_restarts (calm "" "") "203.0.113.5"
     (mkWorld ("A=1" +:+ String strings.nl "CHARON_P2P_EXTERNAL_HOSTNAME=203.0.113.5") [] 0)
     ["A=1"] [] eq_refl eq_refl eq_refl) as (Hf & _ & Hr).
  - repeat constructor.
  - split; [exact Hf | exact Hr].
Defined.

(** X5: after a completed update with a value free of line breaks, the
    first line of the file that begins with the key and [=] is
    [key=newIP], whatever other lines with the key remain below it. *)
Theorem X5_first_key_line_is_new (o : Outcomes) (newIP : string) (w : World) :
  readFailed o = false → written o = Written → strings.oneLine newIP = true →
  head (filter (λ l, isKeyLine l = true)
          (strings.Split (envFile (world_of (updateEnvFile o newIP w)))))
    = Some (envKey +:+ "=" +:+ newIP).
Proof.
  intros Hr Hw Hn. rewrite updateEnvFile_content, Split_newEnvContent by assumption.
  destruct (first_key_line (strings.Split (envFile w))) as [H | (a & l & b & -> & Ha & Hl)].
  - rewrite rewriteLines_absent, filter_app, (filter_plain_nil _ H) by exact H.
    rewrite filter_cons_True by apply entry_isKeyLine. reflexivity.
  - rewrite rewriteLines_first, filter_app, (filter_plain_nil _ Ha) by assumption.
    rewrite filter_cons_True by apply entry_isKeyLine. reflexivity.
Qed.

Lemma X5_first_key_line_is_new_witness :
  head (filter (λ l, isKeyLine l = true)
          (strings.Split (envFile (world_of (updateEnvFile (calm "" "") "203.0.113.5"
             (mkWorld ("CHARON_P2P_EXTERNAL_HOSTNAME=198.51.100.1" +:+ String strings.nl
                       "CHARON_P2P_EXTERNAL_HOSTNAME=198.51.100.2") [] 0))))))
    = Some "CHARON_P2P_EXTERNAL_HOSTNAME=203.0.113.5".
Proof.
  exact (X5_first_key_line_is_new (calm "" "") "203.0.113.5"
     (mkWorld ("CHARON_P2P_EXTERNAL_HOSTNAME=198.51.100.1" +:+ String strings.nl
               "CHARON_P2P_EXTERNAL_HOSTNAME=198.51.100.2") [] 0)
     eq_refl eq_refl eq_refl).
Defined.

(** ** What any iteration does, whatever the outside answers *)

Lemma tick_effects (o : Outcomes) (w : World) :
  let t := trace_of (tick o w) in
  (length (writes t) ≤ 1)%nat
  ∧ (restarts t ≤ length (writes t))%nat
  ∧ (length (inserts t) ≤ restarts t)%nat
  ∧ (∃ d, sleeps t = [d]
          ∧ (d = retryInterval ∨ d = checkInterval ∨ d = (checkInterval * 2)%Z))
  ∧ ip_store (world_of (tick o w)) =
      ip_store w ++ (if insertFailed o then [] else inserts t)
  ∧ (∀ ip, ip ∈ inserts t → fetchOf o = (ip, None))
  ∧ (writes t = [] → envFile (world_of (tick o w)) = envFile w).
Proof.
  intros t. subst t.
  destruct (value_of (getCurrentIP o w)) as [ip [e|]] eqn:Hf.
  { destruct (tick_fetch_failed o w e) as (Hw & Ht); [rewrite Hf; reflexivity|].
    rewrite Hw, Ht. destruct (_ >=? _)%Z; simpl; effects_done. }
  destruct (queryFailed o) eqn:Hq.
  { destruct (tick_query_failed o w ip Hf Hq) as (Hw & Ewr & Ere & Ein & _ & Esl).
    rewrite Hw, Ewr, Ere, Ein, Esl. simpl. effects_done. }
  destruct (tick_fetched o w ip Hf Hq) as (Hw & Ewr & Ere & Ein & _ & Esl & _).
  rewrite Hw, Ewr, Ere, Ein, Esl.
  destruct (needsUpdate (value_of (queryLatest o w)).2 ip
              (value_of (getEnvIP o w)).1 (value_of (queryLatest o w)).1) eqn:Hn.
  2: { rewrite (reconcile_skip o _ _ _ _ _ Hn). simpl. effects_done. }
  destruct (updateSucceeds o) eqn:Hu.
  - destruct (reconcile_update_succeeded o _ _ _ _ (setConsecutiveErrors 0 w) Hn Hu)
      as (_ & Fwr & Fre & Fin & Fsl & Ffile & Fst & _).
    rewrite Fwr, Fre, Fin, Fsl, Fst. simpl. effects_done.
    intros x Hx. apply list_elem_of_singleton in Hx. subst x.
    rewrite <- (getCurrentIP_value o w). exact Hf.
  - destruct (reconcile_update_failed o _ _ _ _ (setConsecutiveErrors 0 w) Hn Hu)
      as (_ & Fin & Fst & _ & Fsl & Fwr & Fre & Ffile).
    rewrite Fwr, Fre, Fin, Fsl, Fst, Ffile.
    destruct (readFailed o), (written o); simpl; effects_done.
Qed.

Lemma run_nil (w : World) : run [] w = (tt, w, []).
Proof. reflexivity. Qed.

Lemma run_app (os1 os2 : list Outcomes) (w : World) :
  world_of (run (os1 ++ os2) w) = world_of (run os2 (world_of (run os1 w)))
  ∧ trace_of (run (os1 ++ os2) w) =
      trace_of (run os1 w) ++ trace_of (run os2 (world_of (run os1 w))).
Proof.
  revert w. induction os1 as [|o os1 IH]; intros w; [split; reflexivity|].
  change ((o :: os1) ++ os2) with (o :: (os1 ++ os2)).
  destruct (run_cons o (os1 ++ os2) w) as (Rw & Rt).
  destruct (run_cons o os1 w) as (Sw & St).
  destruct (IH (world_of (tick o w))) as (Iw & It).
  rewrite Rw, Rt, Sw, St, Iw, It, app_assoc. split; reflexivity.
Qed.

(** ** Runs of the loop *)

(** X6: the loop never spins.  Every iteration waits exactly once, and
    each wait is the retry interval, the check interval or twice the
    check interval, so between 5 and 20 seconds. *)
Theorem X6_one_wait_per_iteration (os : list Outcomes) (w : World) :
  length (sleeps (trace_of (run os w))) = length os
  ∧ Forall (λ d, d = retryInterval ∨ d = checkInterval ∨ d = (checkInterval * 2)%Z)
           (sleeps (trace_of (run os w)))
  ∧ Forall (λ d, (5 * Duration.Second ≤ d ≤ 20 * Duration.Second)%Z)
           (sleeps (trace_of (run os w))).
Proof.
  revert w. induction os as [|o os IH]; intros w.
  - repeat split; constructor.
  - destruct (run_cons o os w) as (_ & Rt). rewrite Rt, sleeps_app.
    destruct (tick_effects o w) as (_ & _ & _ & (d & Hs & Hd) & _).
    destruct (IH (world_of (tick o w))) as (Il & Iv & Ib).
    rewrite Hs. simpl. repeat split.
    + rewrite Il. reflexivity.
    + constructor; assumption.
    + constructor; [|assumption]. cbv beta.
      destruct Hd as [-> | [-> | ->]];
        unfold retryInterval, checkInterval, Duration.Second; lia.
Qed.

(** X7: over any run, the file is written at most once per iteration,
    docker is called at most as often as the file is written, and an
    INSERT is issued at most as often as docker is called. *)
Theorem X7_effects_are_nested (os : list Outcomes) (w : World) :
  (length (inserts (trace_of (run os w))) ≤ restarts (trace_of (run os w)))%nat
  ∧ (restarts (trace_of (run os w)) ≤ length (writes (trace_of (run os w))))%nat
  ∧ (length (writes (trace_of (run os w))) ≤ length os)%nat.
Proof.
  revert w. induction os as [|o os IH]; intros w.
  - repeat split; exact (le_n 0).
  - destruct (run_cons o os w) as (_ & Rt).
    rewrite Rt, inserts_app, restarts_app, writes_app, !length_app.
    destruct (tick_effects o w) as (H1 & H2 & H3 & _).
    destruct (IH (world_of (tick o w))) as (I1 & I2 & I3).
    simpl. repeat split; lia.
Qed.

Lemma Forall_of_sublist {A} (P : A → Prop) (l k : list A) :
  sublist l k → Forall P k → Forall P l.
Proof.
  induction 1 as [|x l k _ IH|x l k _ IH]; intros H; [constructor| |];
    inversion H; subst; [constructor|]; auto.
Qed.

Lemma fetched_not_empty (o : Outcomes) (ip : string) :
  fetchOf o = (ip, None) → ip ≠ "".
Proof.
  unfold fetchOf. intros H. apply getCurrentIP_nil in H as (_ & H).
  apply String.eqb_neq, H.
Qed.

(** X8: the table only grows, and only by addresses that are not empty.
    After any run it holds the rows it held, in the same order, followed
    by some of the addresses an INSERT was issued for (those whose INSERT
    succeeded), and no INSERT is ever issued for the empty string; so a
    table free of empty addresses stays free of them. *)
Theorem X8_table_is_append_only (os : list Outcomes) (w : World) :
  ∃ added : list string,
    ip_store (world_of (run os w)) = ip_store w ++ added
    ∧ sublist added (inserts (trace_of (run os w)))
    ∧ Forall (λ ip, ip ≠ "") (inserts (trace_of (run os w)))
    ∧ (Forall (λ ip, ip ≠ "") (ip_store w) →
       Forall (λ ip, ip ≠ "") (ip_store (world_of (run os w)))).
Proof.
  revert w. induction os as [|o os IH]; intros w.
  - exists []. rewrite run_nil. simpl. rewrite app_nil_r.
    repeat split; [constructor | constructor | auto].
  - destruct (run_cons o os w) as (Rw & Rt). rewrite Rw, Rt, inserts_app.
    destruct (tick_effects o w) as (_ & _ & _ & _ & Hst & Hin & _).
    destruct (IH (world_of (tick o w))) as (added & Ist & Isub & Ine & _).
    assert (Hne : Forall (λ ip, ip ≠ "") (inserts (trace_of (tick o w)))).
    { rewrite Forall_forall. intros ip Hip. apply (fetched_not_empty o), Hin, Hip. }
    assert (Hsub : sublist (if insertFailed o then [] else inserts (trace_of (tick o w)))
                           (inserts (trace_of (tick o w)))).
    { destruct (insertFailed o); [apply sublist_nil_l | reflexivity]. }
    exists ((if insertFailed o then [] else inserts (trace_of (tick o w))) ++ added).
    assert (Hall : Forall (λ ip, ip ≠ "") (inserts (trace_of (tick o w)) ++
                     inserts (trace_of (run os (world_of (tick o w)))))).
    { apply Forall_app; split; assumption. }
    repeat split.
    + rewrite Ist, Hst, app_assoc. reflexivity.
    + apply sublist_app; assumption.
    + exact Hall.
    + intros H0. rewrite Ist, Hst. apply Forall_app; split.
      * apply Forall_app; split; [exact H0|]. eapply Forall_of_sublist; eassumption.
      * eapply Forall_of_sublist; eassumption.
Qed.

(** X9: the file changes only through [os.WriteFile] and the table only
    through an INSERT: a run whose trace holds no write leaves the file
    as it was, and a run whose trace holds no INSERT leaves the table as
    it was. *)
Theorem X9_no_call_no_change (os : list Outcomes) (w : World) :
  (writes (trace_of (run os w)) = [] → envFile (world_of (run os w)) = envFile w)
  ∧ (inserts (trace_of (run os w)) = [] → ip_store (world_of (run os w)) = ip_store w).
Proof.
  revert w. induction os as [|o os IH]; intros w; [split; reflexivity|].
  destruct (run_cons o os w) as (Rw & Rt). rewrite Rw, Rt, writes_app, inserts_app.
  destruct (tick_effects o w) as (_ & _ & _ & _ & _ & _ & Hfile).
  destruct (IH (world_of (tick o w))) as (If & Is).
  split; intros H; apply app_eq_nil in H as (H1 & H2).
  - rewrite (If H2). apply Hfile, H1.
  - rewrite (Is H2). apply tick_store_without_insert, H1.
Qed.

Lemma X9_no_call_no_change_witness :
  envFile (world_of (run [offline; lockedDb "203.0.113.5" ""] (mkWorld "A=1" ["198.51.100.1"] 0)))
    = "A=1"
  ∧ ip_store (world_of (run [offline; lockedDb "203.0.113.5" ""]
                            (mkWorld "A=1" ["198.51.100.1"] 0))) = ["198.51.100.1"].
Proof.
  destruct (X9_no_call_no_change [offline; lockedDb "203.0.113.5" ""]
              (mkWorld "A=1" ["198.51.100.1"] 0)) as (Hf & Hs).
  split; [exact (Hf eq_refl) | exact (Hs eq_refl)].
Defined.

(** X10: the counter counts the fetch failures since the last successful
    fetch.  After any iterations, then one whose fetch succeeds, then [k]
    whose fetch fails, the counter is [k], whatever it was at the start
    ([k] below 2^63). *)
Theorem X10_counter_counts_trailing_failures
    (before : list Outcomes) (o : Outcomes) (failures : list Outcomes)
    (w : World) (ip : string) :
  fetchOf o = (ip, None) →
  Forall (λ o, (fetchOf o).2 ≠ None) failures →
  (Z.of_nat (length failures) < 2 ^ 63)%Z →
  consecutiveErrors (world_of (run (before ++ o :: failures) w))
    = Z.of_nat (length failures).
Proof.
  intros Hf Hall Hlt.
  destruct (run_app before (o :: failures) w) as (Aw & _). rewrite Aw.
  destruct (run_cons o failures (world_of (run before w))) as (Rw & _). rewrite Rw.
  set (w1 := world_of (tick o (world_of (run before w)))).
  assert (H0 : consecutiveErrors w1 = 0%Z).
  { apply (tick_resets_counter o _ ip). rewrite getCurrentIP_value. exact Hf. }
  destruct (run_failures failures w1 Hall) as (Hw & _); [lia | lia |].
  rewrite Hw, H0. reflexivity.
Qed.

Lemma X10_counter_counts_trailing_failures_witness :
  consecutiveErrors (world_of (run ([offline; offline] ++ calm "203.0.113.5" "" ::
                                      [offline; offline; offline])
                                   (mkWorld "" [] 7))) = 3%Z.
Proof.
  apply (X10_counter_counts_trailing_failures [offline; offline] (calm "203.0.113.5" "")
           [offline; offline; offline] (mkWorld "" [] 7) "203.0.113.5" eq_refl).
  - repeat constructor; discriminate.
  - reflexivity.
Defined.

(** ** [getCurrentIP] on every exchange *)

(** X11: [getCurrentIP] returns either an address that is not empty and
    no error, or an error and the empty string, never both and never
    neither.  It makes one request and does not retry.  A status other
    than 200 is reported whatever the body is, also when the body cannot
    be read; a connection failure and an unreadable body of a 200
    response are reported as such. *)
Theorem X11_address_or_error (o : Outcomes) (w : World) :
  ((value_of (getCurrentIP o w)).2 = None ↔ (value_of (getCurrentIP o w)).1 ≠ "")
  ∧ world_of (getCurrentIP o w) = w
  ∧ requests (trace_of (getCurrentIP o w)) = 1%nat
  ∧ sleeps (trace_of (getCurrentIP o w)) = []
  ∧ (exchange o = NoResponse → value_of (getCurrentIP o w) = ("", Some ErrNetwork))
  ∧ (∀ code body, exchange o = Response code body → code ≠ StatusOK →
       value_of (getCurrentIP o w) = ("", Some (ErrStatus code)))
  ∧ (exchange o = Response StatusOK BodyUnreadable →
       value_of (getCurrentIP o w) = ("", Some ErrReadBody)).
Proof.
  unfold getCurrentIP, Unmarshal, requests. unfold_M.
  destruct (exchange o) as [|code body]; simpl.
  { repeat split; intros; simplify_eq; try reflexivity; congruence. }
  destruct (Z.eqb_spec code StatusOK) as [->|Hne]; simpl.
  2: { repeat split; intros; simplify_eq; try reflexivity; congruence. }
  destruct body as [|[|[s|]]]; simpl;
    try (repeat split; intros; simplify_eq; try reflexivity; congruence).
  destruct (String.eqb_spec s "") as [->|Hs]; simpl;
    repeat split; intros; simplify_eq; try reflexivity; congruence.
Qed.

Lemma X11_address_or_error_witness :
  value_of (getCurrentIP
     (mkOutcomes (Response 503 BodyUnreadable) true "" false false Written false false)
     (mkWorld "" [] 0)) = ("", Some (ErrStatus 503)).
Proof.
  destruct (X11_address_or_error
     (mkOutcomes (Response 503 BodyUnreadable) true "" false false Written false false)
     (mkWorld "" [] 0)) as (_ & _ & _ & _ & _ & H & _).
  apply (H 503%Z BodyUnreadable eq_refl). discriminate.
Defined.

(** ** Iterations in sequence *)

Lemma getEnvIP_envOf (o : Outcomes) (w : World) : value_of (getEnvIP o w) = envOf o.
Proof.
  unfold envOf, getEnvIP. unfold_M.
  destruct (dotenvLoaded o); simpl; [|reflexivity].
  destruct (String.eqb (getenv o) ""); reflexivity.
Qed.

Lemma updateSucceeds_true (o : Outcomes) :
  updateSucceeds o = true →
  readFailed o = false ∧ written o = Written ∧ dockerFailed o = false.
Proof.
  unfold updateSucceeds.
  destruct (readFailed o), (written o), (dockerFailed o); simpl;
    intros H; try discriminate H; repeat split.
Qed.

Lemma last_snoc_Some {A} (l : list A) (x : A) : last (l ++ [x]) = Some x.
Proof. apply last_snoc. Qed.

(** What a fully successful update leaves behind. *)
Lemma tick_update_done (o : Outcomes) (w : World) (ip : string) :
  fetchOf o = (ip, None) → queryFailed o = false →
  Spec.updateRequired (ip_store w) ip (envOf o).1 →
  updateSucceeds o = true → insertFailed o = false →
  world_of (tick o w) =
    mkWorld (newEnvContent ip (envFile w)) (ip_store w ++ [ip]) 0
  ∧ writes (trace_of (tick o w)) = [newEnvContent ip (envFile w)]
  ∧ restarts (trace_of (tick o w)) = 1%nat
  ∧ inserts (trace_of (tick o w)) = [ip].
Proof.
  intros Hf Hq Hreq Hu Hi.
  rewrite <- (getCurrentIP_value o w) in Hf. rewrite <- (getEnvIP_envOf o w) in Hreq.
  destruct (updateSucceeds_true o Hu) as (Hr & Hw & Hd).
  destruct (tick_update_written o w ip Hf Hq Hreq Hr Hw)
    as (Ewr & Efile & Ere & Ein & Est & _ & Ece).
  rewrite Hd, Hi in *. simpl in Est.
  repeat split; try assumption.
  destruct (world_of (tick o w)) as [f s c]. simpl in *. subst. reflexivity.
Qed.

(** X12: the loop settles.  After an iteration that made the update in
    full (file written, docker succeeded, row inserted), an iteration
    that fetches the same address and whose config reading is that
    address or is absent changes nothing: no write, no docker call, no
    INSERT, and the check interval is waited. *)
Theorem X12_settles_after_update (o1 o2 : Outcomes) (w : World) (ip : string) :
  fetchOf o1 = (ip, None) → queryFailed o1 = false →
  Spec.updateRequired (ip_store w) ip (envOf o1).1 →
  updateSucceeds o1 = true → insertFailed o1 = false →
  fetchOf o2 = (ip, None) →
  (envOf o2).1 = ip ∨ (envOf o2).1 = "" →
  let w1 := world_of (tick o1 w) in
  untouched w1 (tick o2 w1)
  ∧ updateAttempted (trace_of (tick o2 w1)) = false
  ∧ restarts (trace_of (run [o1; o2] w)) = 1%nat
  ∧ ip_store (world_of (run [o1; o2] w)) = ip_store w ++ [ip].
Proof.
  intros Hf1 Hq1 Hreq Hu Hi Hf2 Henv w1.
  destruct (tick_update_done o1 w ip Hf1 Hq1 Hreq Hu Hi) as (Hw1 & _ & Hre1 & _).
  fold w1 in Hw1.
  assert (Hlast : last (ip_store w1) = Some ip)
    by (rewrite Hw1; simpl; apply last_snoc).
  assert (Hf2' : value_of (getCurrentIP o2 w1) = (ip, None))
    by (rewrite getCurrentIP_value; exact Hf2).
  assert (Hun : untouched w1 (tick o2 w1) ∧ updateAttempted (trace_of (tick o2 w1)) = false).
  { destruct (queryFailed o2) eqn:Hq2.
    - destruct (tick_query_failed o2 w1 ip Hf2' Hq2) as (Hw & Ewr & Ere & Ein & Eat & _).
      unfold untouched. rewrite Hw, Ewr, Ere, Ein, Eat. repeat split; reflexivity.
    - destruct (tick_decision o2 w1 ip Hf2' Hq2) as (Hiff & _ & Hno).
      assert (Hnot : ¬ Spec.updateRequired (ip_store w1) ip (value_of (getEnvIP o2 w1)).1).
      { rewrite getEnvIP_envOf.
        intros [Hnone | [(s & Hs & Hd) | (Hne & s & Hs & Hd)]]; try congruence;
          rewrite Hlast in Hs; injection Hs as <-; destruct Henv; congruence. }
      split; [apply Hno, Hnot|].
      destruct (updateAttempted (trace_of (tick o2 w1))); [|reflexivity].
      exfalso. apply Hnot, Hiff. reflexivity. }
  destruct Hun as (Hun & Hat). split; [exact Hun|]. split; [exact Hat|].
  destruct (run_cons o1 [o2] w) as (Rw & Rt).
  destruct (run_cons o2 [] w1) as (Rw2 & Rt2).
  fold w1 in Rw, Rt. rewrite Rw, Rt, Rw2, Rt2, !restarts_app, Hre1.
  destruct Hun as (_ & Hst & _ & Hre2 & _).
  rewrite Hre2. split; [reflexivity|].
  change (world_of (run [] (world_of (tick o2 w1)))) with (world_of (tick o2 w1)).
  rewrite Hst, Hw1. reflexivity.
Qed.

Lemma X12_settles_after_update_witness :
  restarts (trace_of (run [calm "203.0.113.5" ""; calm "203.0.113.5" "203.0.113.5"]
                          (mkWorld "A=1" [] 0))) = 1%nat
  ∧ ip_store (world_of (run [calm "203.0.113.5" ""; calm "203.0.113.5" "203.0.113.5"]
                            (mkWorld "A=1" [] 0))) = ["203.0.113.5"].
Proof.
  destruct (X12_settles_after_update (calm "203.0.113.5" "")
              (calm "203.0.113.5" "203.0.113.5") (mkWorld "A=1" [] 0) "203.0.113.5"
              eq_refl eq_refl) as (_ & _ & Hre & Hst).
  - left. reflexivity.
  - reflexivity.
  - reflexivity.
  - reflexivity.
  - left. reflexivity.
  - split; [exact Hre | exact Hst].
Defined.

Lemma required_when_unrecorded (store : list string) (ip envIP : string) :
  last store ≠ Some ip → Spec.updateRequired store ip envIP.
Proof.
  intros H. unfold Spec.updateRequired.
  destruct (last store) as [s|]; [|left; reflexivity].
  right. left. exists s. split; [reflexivity | congruence].
Qed.

Lemma required_when_reading_differs (store : list string) (ip B : string) :
  B ≠ "" → B ≠ ip → Spec.updateRequired store ip B.
Proof.
  intros Hne Hd.
  destruct (last store) as [s|] eqn:Hl.
  - destruct (String.eqb_spec s ip) as [->|Hs].
    + right. right. split; [exact Hne|]. exists ip. split; [exact Hl | exact Hd].
    + right. left. exists s. split; [exact Hl | exact Hs].
  - left. exact Hl.
Qed.

(** X13: an address that did not reach the table is tried again.  When
    the newest row is not the fetched address and the iteration ends
    without a successful INSERT (the update failed, or the INSERT did),
    the table is as before, so the next iteration that fetches the same
    address and can query enters the update again: it rewrites the file
    and calls docker once more, and records the address if all goes
    well. *)
Theorem X13_unrecorded_address_is_retried (o1 o2 : Outcomes) (w : World) (ip : string) :
  updateSucceeds o1 = false ∨ insertFailed o1 = true →
  last (ip_store w) ≠ Some ip →
  fetchOf o2 = (ip, None) → queryFailed o2 = false →
  let w1 := world_of (tick o1 w) in
  ip_store w1 = ip_store w
  ∧ updateAttempted (trace_of (tick o2 w1)) = true
  ∧ (readFailed o2 = false → written o2 = Written →
       writes (trace_of (tick o2 w1)) = [newEnvContent ip (envFile w1)]
       ∧ restarts (trace_of (tick o2 w1)) = 1%nat)
  ∧ (updateSucceeds o2 = true → insertFailed o2 = false →
       last (ip_store (world_of (tick o2 w1))) = Some ip).
Proof.
  intros Hfail Hlast Hf Hq w1.
  assert (Hst : ip_store w1 = ip_store w).
  { unfold w1. destruct (tick_effects o1 w) as (_ & _ & _ & _ & Hs & _).
    rewrite Hs. destruct Hfail as [Hu | Hi].
    - destruct (inserts (trace_of (tick o1 w))) as [|x l] eqn:E.
      + destruct (insertFailed o1); apply app_nil_r.
      + destruct (tick_insert_follows_restart o1 w) as (Hu' & _);
          [rewrite E; discriminate | congruence].
    - rewrite Hi. apply app_nil_r. }
  assert (Hf' : value_of (getCurrentIP o2 w1) = (ip, None))
    by (rewrite getCurrentIP_value; exact Hf).
  assert (Hreq : Spec.updateRequired (ip_store w1) ip (value_of (getEnvIP o2 w1)).1)
    by (apply required_when_unrecorded; rewrite Hst; exact Hlast).
  split; [exact Hst|]. split; [|split].
  - apply (tick_decision o2 w1 ip Hf' Hq), Hreq.
  - intros Hr Hw.
    destruct (tick_update_written o2 w1 ip Hf' Hq Hreq Hr Hw) as (Ewr & _ & Ere & _).
    split; assumption.
  - intros Hu Hi. rewrite getEnvIP_envOf in Hreq.
    destruct (tick_update_done o2 w1 ip Hf Hq Hreq Hu Hi) as (Hw2 & _).
    rewrite Hw2. simpl. apply last_snoc.
Qed.

Lemma X13_unrecorded_address_is_retried_witness :
  restarts (trace_of (tick (calm "203.0.113.5" "")
     (world_of (tick (dockerDown "203.0.113.5" "") (mkWorld "A=1" [] 0))))) = 1%nat
  ∧ last (ip_store (world_of (tick (calm "203.0.113.5" "")
     (world_of (tick (dockerDown "203.0.113.5" "") (mkWorld "A=1" [] 0))))))
    = Some "203.0.113.5".
Proof.
  destruct (X13_unrecorded_address_is_retried (dockerDown "203.0.113.5" "")
              (calm "203.0.113.5" "") (mkWorld "A=1" [] 0) "203.0.113.5")
    as (_ & _ & H1 & H2).
  - left. reflexivity.
  - discriminate.
  - reflexivity.
  - reflexivity.
  - split; [exact (proj2 (H1 eq_refl eq_refl)) | exact (H2 eq_refl eq_refl)].
Defined.

(** X14: while the config reading differs from the fetched address, every
    iteration updates.  In a run whose iterations all fetch [ip], read
    [B ≠ ip] from [getEnvIP] and succeed in every call, each iteration
    writes the file, calls docker and inserts [ip] again, whatever the
    table held: docker is called once per iteration and the table gains
    one row [ip] per iteration. *)
Theorem X14_differing_reading_updates_every_time
    (os : list Outcomes) (w : World) (ip B : string) :
  Forall (λ o, fetchOf o = (ip, None) ∧ envOf o = (B, None)
               ∧ queryFailed o = false ∧ updateSucceeds o = true
               ∧ insertFailed o = false) os →
  B ≠ ip →
  restarts (trace_of (run os w)) = length os
  ∧ length (writes (trace_of (run os w))) = length os
  ∧ ip_store (world_of (run os w)) = ip_store w ++ replicate (length os) ip.
Proof.
  intros Hall Hd. revert w.
  induction Hall as [|o os (Hf & He & Hq & Hu & Hi) _ IH]; intros w.
  - rewrite run_nil. simpl. rewrite app_nil_r. repeat split.
  - assert (HB : B ≠ "").
    { unfold envOf in He. apply getEnvIP_nil in He as (_ & _ & H).
      apply String.eqb_neq, H. }
    assert (Hreq : Spec.updateRequired (ip_store w) ip (envOf o).1)
      by (rewrite He; apply required_when_reading_differs; assumption).
    destruct (tick_update_done o w ip Hf Hq Hreq Hu Hi) as (Hw1 & Ewr & Ere & _).
    destruct (run_cons o os w) as (Rw & Rt).
    destruct (IH (world_of (tick o w))) as (Ire & Iwr & Ist).
    rewrite Rw, Rt, restarts_app, writes_app, length_app, Ere, Ewr, Ire, Iwr, Ist, Hw1.
    simpl. rewrite <- app_assoc. repeat split.
Qed.

Lemma X14_differing_reading_updates_every_time_witness :
  restarts (trace_of (run [calm "203.0.113.5" "198.51.100.1"; calm "203.0.113.5" "198.51.100.1";
                           calm "203.0.113.5" "198.51.100.1"]
                          (mkWorld "A=1" ["203.0.113.5"] 0))) = 3%nat
  ∧ ip_store (world_of (run [calm "203.0.113.5" "198.51.100.1"; calm "203.0.113.5" "198.51.100.1";
                             calm "203.0.113.5" "198.51.100.1"]
                            (mkWorld "A=1" ["203.0.113.5"] 0)))
    = ["203.0.113.5"; "203.0.113.5"; "203.0.113.5"; "203.0.113.5"].
Proof.
  destruct (X14_differing_reading_updates_every_time
     [calm "203.0.113.5" "198.51.100.1"; calm "203.0.113.5" "198.51.100.1";
      calm "203.0.113.5" "198.51.100.1"]
     (mkWorld "A=1" ["203.0.113.5"] 0) "203.0.113.5" "198.51.100.1")
    as (Hre & _ & Hst).
  - repeat constructor.
  - discriminate.
  - split; [exact Hre | exact Hst].
Defined.

(** ** Start-up *)

Lemma loopEvents_InLoop (t : list Event) : loopEvents (map InLoop t) = t.
Proof.
  induction t as [|e t IH]; [reflexivity|].
  change (loopEvents (map InLoop (e :: t))) with (e :: loopEvents (map InLoop t)).
  rewrite IH. reflexivity.
Qed.

Lemma closes_InLoop (t : list Event) : closes (map InLoop t) = 0%nat.
Proof.
  induction t as [|e t IH]; [reflexivity|].
  change (closes (map InLoop (e :: t))) with (closes (map InLoop t)). exact IH.
Qed.

(** X15: the process exits with status 1 exactly when the database cannot
    be opened or its table cannot be created, and then before the first
    iteration: no request, no access to the file, no docker call, the
    world as it was.  The handle opened is closed when the table creation
    fails and only then.  Otherwise the process does not exit, never
    closes the handle, and runs the loop from a counter of 0. *)
Theorem X15_startup (s : Startup) (os : list Outcomes) (w : World) :
  let r := main s os w in
  (r.2 = Some 1%Z ↔ openFailed s = true ∨ createFailed s = true)
  ∧ (r.2 ≠ None →
       loopEvents r.1.2 = [] ∧ r.1.1 = w
       ∧ closes r.1.2 = (if openFailed s then 0%nat else 1%nat)
       ∧ ∃ pre e, r.1.2 = pre ++ [Fatalf e])
  ∧ (r.2 = None →
       loopEvents r.1.2 = trace_of (run os (setConsecutiveErrors 0 w))
       ∧ r.1.1 = world_of (run os (setConsecutiveErrors 0 w))
       ∧ closes r.1.2 = 0%nat).
Proof.
  unfold main, initDB.
  destruct (openFailed s), (createFailed s); simpl;
    try (repeat split; intros; try congruence; try tauto; eauto;
         try (eexists [_; _; _; _], _; reflexivity);
         try (eexists [_; _; _; _; _; _], _; reflexivity); fail).
  destruct (run os (setConsecutiveErrors 0 w)) as [[u w'] t] eqn:E.
  unfold world_of, trace_of. simpl.
  repeat split; intros; try congruence.
  - destruct H; discriminate.
  - apply loopEvents_InLoop.
  - apply closes_InLoop.
Qed.

Lemma X15_startup_witness :
  (main (mkStartup false true) [calm "203.0.113.5" ""] (mkWorld "A=1" [] 0)).2 = Some 1%Z
  ∧ loopEvents (main (mkStartup false true) [calm "203.0.113.5" ""] (mkWorld "A=1" [] 0)).1.2 = []
  ∧ closes (main (mkStartup false true) [calm "203.0.113.5" ""] (mkWorld "A=1" [] 0)).1.2 = 1%nat.
Proof.
  destruct (X15_startup (mkStartup false true) [calm "203.0.113.5" ""] (mkWorld "A=1" [] 0))
    as (H1 & H2 & _).
  split; [apply H1; right; reflexivity|].
  destruct H2 as (Hl & _ & Hc & _); [discriminate|].
  split; [exact Hl | exact Hc].
Defined.

(** ** The earlier revision *)

(** X16: the earlier [getCurrentIP] succeeds on every response whose body
    can be read and decoded, whatever its status, and returns the address
    of the document, or the empty string when the document has none; it
    fails only when there is no response, the body cannot be read or the
    body does not decode.  Whenever the current [getCurrentIP] succeeds,
    the earlier one returns the same address. *)
Theorem X16_previous_fetch_is_lenient (o : Outcomes) (w : World) :
  (∀ code ip, exchange o = Response code (BodyRead (Document ip)) →
     (Previous.getCurrentIP o w).1.1 = (default "" ip, None))
  ∧ ((Previous.getCurrentIP o w).1.1.2 ≠ None ↔
       exchange o = NoResponse
       ∨ (∃ code, exchange o = Response code BodyUnreadable)
       ∨ (∃ code, exchange o = Response code (BodyRead BadJSON)))
  ∧ (∀ ip, value_of (getCurrentIP o w) = (ip, None) →
       (Previous.getCurrentIP o w).1.1 = (ip, None)).
Proof.
  split; [|split].
  - intros code ip Hx. unfold_ticks. rewrite Hx. destruct ip; reflexivity.
  - unfold_ticks. destruct (exchange o) as [|code [|[|[s|]]]]; simpl; split;
      try congruence; try (intros _; eauto; fail);
      intros [H | [(c & H) | (c & H)]]; discriminate H.
  - intros ip Hf. apply getCurrentIP_nil in Hf as (Hx & _).
    unfold_ticks. rewrite Hx. reflexivity.
Qed.

Lemma X16_previous_fetch_is_lenient_witness :
  (Previous.getCurrentIP
     (mkOutcomes (Response 500 (BodyRead (Document None))) true "" false false Written false false)
     (mkWorld "" [] 0)).1.1 = ("", None).
Proof.
  exact (proj1 (X16_previous_fetch_is_lenient
     (mkOutcomes (Response 500 (BodyRead (Document None))) true "" false false Written false false)
     (mkWorld "" [] 0)) 500%Z None eq_refl).
Defined.

Lemma shared_Shared (t : list Event) : Previous.shared (map Previous.Shared t) = t.
Proof.
  induction t as [|e t IH]; [reflexivity|].
  change (Previous.shared (map Previous.Shared (e :: t)))
    with (e :: Previous.shared (map Previous.Shared t)).
  rewrite IH. reflexivity.
Qed.

Lemma shared_app_Shared (t : list Event) (rest : list Previous.PEvent) :
  Previous.shared (map Previous.Shared t ++ rest) = t ++ Previous.shared rest.
Proof.
  unfold Previous.shared. rewrite omap_app. f_equal. apply shared_Shared.
Qed.

Lemma updateEnvFile_sleeps (o : Outcomes) (newIP : string) (w : World) :
  sleeps (trace_of (updateEnvFile o newIP w)) = []
  ∧ inserts (trace_of (updateEnvFile o newIP w)) = [].
Proof.
  unfold updateEnvFile, restartCharon. unfold_M.
  destruct (readFailed o); [split; reflexivity|].
  destruct (scanLines _ _ _ _) as [[ls found] rep].
  destruct rep, found, (written o), (dockerFailed o); split; reflexivity.
Qed.

(** [updateEnvFile] neither reads nor changes the counter. *)
Lemma updateEnvFile_counter (o : Outcomes) (newIP : string) (n : Z) (w : World) :
  updateEnvFile o newIP (setConsecutiveErrors n w) =
    (value_of (updateEnvFile o newIP w),
     setConsecutiveErrors n (world_of (updateEnvFile o newIP w)),
     trace_of (updateEnvFile o newIP w)).
Proof.
  unfold updateEnvFile, restartCharon. unfold_M. destruct w as [file store c]. simpl.
  destruct (readFailed o); [reflexivity|].
  destruct (scanLines _ _ _ _) as [[ls found] rep].
  destruct rep, found, (written o), (dockerFailed o); reflexivity.
Qed.


Lemma reconcile_guarded (o : Outcomes) (err : option error)
    (ip envIP stored : string) (w : World) :
  guardedEffects o w ip (needsUpdate err ip envIP stored)
    (world_of (reconcile o err ip envIP stored w))
    (trace_of (reconcile o err ip envIP stored w)).
Proof.
  unfold guardedEffects, reconcile, insertIP.
  destruct (needsUpdate err ip envIP stored); [|repeat split; reflexivity].
  destruct (updateEnvFile_sleeps o ip w) as (_ & Hin).
  destruct (updateEnvFile_frame o ip w) as (Hst & _).
  unfold_M.
  destruct (updateEnvFile o ip w) as [[[e|] w1] t1]; simpl in *.
  - rewrite writes_app, restarts_app, inserts_app, Hin. simpl.
    rewrite app_nil_r, Nat.add_0_r. repeat split; try reflexivity. exact Hst.
  - destruct (insertFailed o); simpl;
      rewrite writes_app, restarts_app, inserts_app, Hin; simpl;
      rewrite app_nil_r, Nat.add_0_r; repeat split; try reflexivity;
      rewrite Hst; reflexivity.
Qed.

Lemma previous_reconcile_guarded (o : Outcomes) (err : option error)
    (ip envIP stored : string) (w : World) :
  guardedEffects o w ip (needsUpdate err ip envIP stored)
    (Previous.reconcile o err ip envIP stored w).1.2
    (Previous.shared (Previous.reconcile o err ip envIP stored w).2)
  ∧ sleeps (Previous.shared (Previous.reconcile o err ip envIP stored w).2) = [checkInterval]
  ∧ consecutiveErrors (Previous.reconcile o err ip envIP stored w).1.2 = consecutiveErrors w.
Proof.
  unfold guardedEffects, Previous.reconcile, Previous.lift, Previous.pemit, insertIP.
  unfold mbind, mret, Previous.PM_bind, Previous.PM_ret.
  destruct (needsUpdate err ip envIP stored); [|repeat split; reflexivity].
  destruct (updateEnvFile_sleeps o ip w) as (Hsl & Hin).
  destruct (updateEnvFile_frame o ip w) as (Hst & Hce).
  unfold_M.
  destruct (updateEnvFile o ip w) as [[[e|] w1] t1]; simpl in *.
  - rewrite shared_app_Shared, writes_app, restarts_app, inserts_app, sleeps_app, Hin, Hsl.
    simpl. rewrite app_nil_r, Nat.add_0_r. repeat split; try reflexivity; assumption.
  - destruct (insertFailed o); simpl;
      rewrite shared_app_Shared, writes_app, restarts_app, inserts_app, sleeps_app, Hin, Hsl;
      simpl; rewrite app_nil_r, Nat.add_0_r; repeat split; try reflexivity;
      try assumption; rewrite Hst; reflexivity.
Qed.

Lemma guardedEffects_counter (o : Outcomes) (w : World) (n : Z) (ip : string)
    (needed : bool) (world' : World) (t : list Event) :
  guardedEffects o (setConsecutiveErrors n w) ip needed world' t →
  guardedEffects o w ip needed world' t.
Proof.
  unfold guardedEffects. rewrite updateEnvFile_counter. unfold_M. simpl.
  destruct (updateEnvFile o ip w) as [[e w1] t1]. simpl. auto.
Qed.

(** The earlier loop body once its fetch has succeeded: what comes before
    the guarded update touches nothing. *)
Lemma previous_tick_fetched (o : Outcomes) (w : World) (code : Z) (f : option string) :
  exchange o = Response code (BodyRead (Document f)) → queryFailed o = false →
  let r := Previous.reconcile o (storedOf (ip_store w)).2 (default "" f) (envOf o).1
             (storedOf (ip_store w)).1 w in
  (Previous.tick o w).1.2 = r.1.2
  ∧ writes (Previous.shared (Previous.tick o w).2) = writes (Previous.shared r.2)
  ∧ restarts (Previous.shared (Previous.tick o w).2) = restarts (Previous.shared r.2)
  ∧ inserts (Previous.shared (Previous.tick o w).2) = inserts (Previous.shared r.2)
  ∧ sleeps (Previous.shared (Previous.tick o w).2) = sleeps (Previous.shared r.2).
Proof.
  intros Hx Hq. unfold envOf, storedOf.
  unfold Previous.tick, Previous.getCurrentIP, Previous.lift, Previous.pemit,
    getEnvIP, queryLatest, Unmarshal.
  unfold mbind, mret, Previous.PM_bind, Previous.PM_ret. unfold_M.
  rewrite Hx, Hq. destruct w as [file store n]. simpl.
  destruct f as [ip|]; simpl;
    (destruct (dotenvLoaded o); simpl;
       [destruct (String.eqb (getenv o) ""); simpl|]);
    destruct (last store) as [stored|]; simpl;
    match goal with
    | |- context [Previous.reconcile ?a ?b ?c ?d ?e ?g] =>
        destruct (Previous.reconcile a b c d e g) as [[u w'] t]
    end; repeat split; reflexivity.
Qed.

Lemma previous_tick_query_failed (o : Outcomes) (w : World) (code : Z) (f : option string) :
  exchange o = Response code (BodyRead (Document f)) → queryFailed o = true →
  (Previous.tick o w).1.2 = w
  ∧ writes (Previous.shared (Previous.tick o w).2) = []
  ∧ restarts (Previous.shared (Previous.tick o w).2) = 0%nat
  ∧ inserts (Previous.shared (Previous.tick o w).2) = []
  ∧ sleeps (Previous.shared (Previous.tick o w).2) = [checkInterval].
Proof.
  intros Hx Hq.
  unfold Previous.tick, Previous.getCurrentIP, Previous.lift, Previous.pemit,
    getEnvIP, queryLatest, Unmarshal.
  unfold mbind, mret, Previous.PM_bind, Previous.PM_ret. unfold_M.
  rewrite Hx, Hq. destruct w as [file store n]. simpl.
  destruct f as [ip|]; simpl;
    (destruct (dotenvLoaded o); simpl;
       [destruct (String.eqb (getenv o) ""); simpl|]);
    repeat split; reflexivity.
Qed.

Lemma guardedEffects_agree (o : Outcomes) (w : World) (ip : string) (needed : bool)
    (w1 w2 : World) (t1 t2 : list Event) :
  guardedEffects o w ip needed w1 t1 → guardedEffects o w ip needed w2 t2 →
  envFile w1 = envFile w2 ∧ ip_store w1 = ip_store w2
  ∧ writes t1 = writes t2 ∧ restarts t1 = restarts t2 ∧ inserts t1 = inserts t2.
Proof.
  unfold guardedEffects. destruct needed.
  - destruct (value_of (updateEnvFile o ip w));
      intros (A1 & A2 & A3 & A4 & A5) (B1 & B2 & B3 & B4 & B5);
      repeat split; congruence.
  - intros (A1 & A2 & A3 & A4 & A5) (B1 & B2 & B3 & B4 & B5).
    repeat split; congruence.
Qed.

(** X17: the earlier loop has no back-off.  Every iteration waits once,
    and always the check interval, whatever failed; it never changes the
    counter. *)
Theorem X17_previous_always_waits_check_interval (o : Outcomes) (w : World) :
  sleeps (Previous.shared (Previous.tick o w).2) = [checkInterval]
  ∧ consecutiveErrors (Previous.tick o w).1.2 = consecutiveErrors w.
Proof.
  destruct (exchange o) as [|code [|[|f]]] eqn:Hx;
    try (unfold Previous.tick, Previous.getCurrentIP, Previous.lift, Previous.pemit,
           Unmarshal;
         unfold mbind, mret, Previous.PM_bind, Previous.PM_ret; unfold_M;
         rewrite Hx; destruct w; split; reflexivity).
  destruct (queryFailed o) eqn:Hq.
  - destruct (previous_tick_query_failed o w code f Hx Hq) as (Hw & _ & _ & _ & Hs).
    rewrite Hw, Hs. split; reflexivity.
  - destruct (previous_tick_fetched o w code f Hx Hq) as (Hw & _ & _ & _ & Hs).
    rewrite Hw, Hs. apply previous_reconcile_guarded.
Qed.

(** X18: the two revisions differ only in how they treat failures.  On an
    iteration whose fetch succeeds in the current revision, the earlier
    loop body leaves the same file and the same table, and makes the same
    writes, docker calls and INSERTs. *)
Theorem X18_revisions_agree_on_fetched_address (o : Outcomes) (w : World) (ip : string) :
  fetchOf o = (ip, None) →
  envFile (Previous.tick o w).1.2 = envFile (world_of (tick o w))
  ∧ ip_store (Previous.tick o w).1.2 = ip_store (world_of (tick o w))
  ∧ writes (Previous.shared (Previous.tick o w).2) = writes (trace_of (tick o w))
  ∧ restarts (Previous.shared (Previous.tick o w).2) = restarts (trace_of (tick o w))
  ∧ inserts (Previous.shared (Previous.tick o w).2) = inserts (trace_of (tick o w)).
Proof.
  intros Hf. rewrite <- (getCurrentIP_value o w) in Hf.
  destruct (getCurrentIP_nil o w ip Hf) as (Hx & _).
  destruct (queryFailed o) eqn:Hq.
  - destruct (previous_tick_query_failed o w _ _ Hx Hq) as (Pw & Pwr & Pre & Pin & _).
    destruct (tick_query_failed o w ip Hf Hq) as (Cw & Cwr & Cre & Cin & _).
    rewrite Pw, Pwr, Pre, Pin, Cw, Cwr, Cre, Cin. repeat split; reflexivity.
  - destruct (previous_tick_fetched o w _ _ Hx Hq) as (Pw & Pwr & Pre & Pin & _).
    destruct (tick_fetched o w ip Hf Hq) as (Cw & Cwr & Cre & Cin & _).
    rewrite (queryLatest_value o w Hq), getEnvIP_envOf in Cw, Cwr, Cre, Cin.
    rewrite Pw, Pwr, Pre, Pin, Cw, Cwr, Cre, Cin.
    eapply guardedEffects_agree.
    + apply (proj1 (previous_reconcile_guarded o _ _ _ _ w)).
    + apply guardedEffects_counter with (n := 0%Z). apply reconcile_guarded.
Qed.

Lemma X18_revisions_agree_on_fetched_address_witness :
  writes (Previous.shared (Previous.tick (calm "203.0.113.5" "") (mkWorld "A=1" [] 0)).2)
    = writes (trace_of (tick (calm "203.0.113.5" "") (mkWorld "A=1" [] 0))).
Proof.
  destruct (X18_revisions_agree_on_fetched_address (calm "203.0.113.5" "")
              (mkWorld "A=1" [] 0) "203.0.113.5" eq_refl) as (_ & _ & H & _).
  exact H.
Defined.

(** X19: the earlier revision records an empty address.  When the
    response decodes to a document without an address, or with an empty
    one, the newest row is not the empty string and every call succeeds,
    the earlier loop body writes the line [key=] to the file, calls
    docker and inserts the empty string; the current one fails the fetch
    and touches nothing. *)
Theorem X19_previous_records_empty_address (o : Outcomes) (w : World)
    (code : Z) (ip : option string) :
  exchange o = Response code (BodyRead (Document ip)) →
  default "" ip = "" →
  last (ip_store w) ≠ Some "" →
  queryFailed o = false → updateSucceeds o = true → insertFailed o = false →
  (writes (Previous.shared (Previous.tick o w).2) = [newEnvContent "" (envFile w)]
   ∧ restarts (Previous.shared (Previous.tick o w).2) = 1%nat
   ∧ inserts (Previous.shared (Previous.tick o w).2) = [""]
   ∧ envFile (Previous.tick o w).1.2 = newEnvContent "" (envFile w)
   ∧ ip_store (Previous.tick o w).1.2 = ip_store w ++ [""])
  ∧ untouched w (tick o w).
Proof.
  intros Hx Hip Hlast Hq Hu Hi.
  destruct (updateSucceeds_true o Hu) as (Hr & Hw & Hd).
  split.
  - destruct (previous_tick_fetched o w code ip Hx Hq) as (Pw & Pwr & Pre & Pin & _).
    rewrite Pw, Pwr, Pre, Pin, Hip.
    destruct (previous_reconcile_guarded o (storedOf (ip_store w)).2 "" (envOf o).1
                (storedOf (ip_store w)).1 w) as (G & _).
    unfold guardedEffects in G.
    rewrite (proj2 (needsUpdate_spec (ip_store w) "" (envOf o).1)
               (required_when_unrecorded _ _ _ Hlast)) in G.
    rewrite updateEnvFile_value, Hr, Hw, Hd, Hi in G.
    destruct G as (G1 & G2 & G3 & G4 & G5).
    destruct (updateEnvFile_calls o "" w Hr Hw) as (Ewr & Ere).
    rewrite G1, G2, G3, G4, G5, Ewr, Ere, updateEnvFile_content by assumption.
    repeat split; reflexivity.
  - assert (Hf : ∃ e, (value_of (getCurrentIP o w)).2 = Some e).
    { unfold getCurrentIP, Unmarshal. unfold_M. rewrite Hx.
      destruct (code =? StatusOK)%Z; simpl; [|eauto].
      destruct ip as [s|]; simpl in Hip; subst; simpl; eauto. }
    destruct Hf as (e & Hf).
    destruct (tick_fetch_failed o w e Hf) as (Hw' & Ht).
    unfold untouched. rewrite Hw', Ht. destruct (_ >=? _)%Z; repeat split; reflexivity.
Qed.

Lemma X19_previous_records_empty_address_witness :
  ip_store (Previous.tick
     (mkOutcomes (Response 200 (BodyRead (Document None))) true "" false false Written false false)
     (mkWorld "A=1" ["198.51.100.1"] 0)).1.2 = ["198.51.100.1"; ""]
  ∧ untouched (mkWorld "A=1" ["198.51.100.1"] 0)
      (tick (mkOutcomes (Response 200 (BodyRead (Document None))) true "" false false Written false false)
            (mkWorld "A=1" ["198.51.100.1"] 0)).
Proof.
  destruct (X19_previous_records_empty_address
     (mkOutcomes (Response 200 (BodyRead (Document None))) true "" false false Written false false)
     (mkWorld "A=1" ["198.51.100.1"] 0) 200%Z None eq_refl eq_refl)
    as ((_ & _ & _ & _ & Hst) & Hun); try reflexivity.
  - discriminate.
  - split; [exact Hst | exact Hun].
Defined.
